(** * COLMAP cost functions (src/base/cost_functions.h)

    A shallow embedding of the four residual functors of COLMAP's bundle
    adjustment layer, and the properties of their evaluation operators.

    The functors are C++ templates over the numeric type [T] (a plain
    [double], or an automatic-differentiation number).  The embedding keeps
    that shape: every evaluator is written once, over an interface [Scalar]
    of arithmetic operations, and is then instantiated
    - at IEEE binary64 numbers (Rocq's primitive floats), which is [T = double];
    - at exact rationals, which is the arithmetic the algebraic properties
      are about.
    The rotation routines (ceres/rotation.h) and the camera model are
    external to the file and enter the evaluators as parameters. *)

From Stdlib Require Import ZArith QArith Qcanon Floats List Bool Ring Lia.
From Stdlib Require Import Classical_Prop.
Import ListNotations.

Set Implicit Arguments.
Local Open Scope nat_scope.

(** ** The numeric interface of the template parameter [T]

    [D] is the type of the constants captured at construction
    ([Eigen::Vector2d] and friends hold [double]s); [cast d] is the
    conversion [T(d)].  [zero] and [one] are [T(0)] and [T(1)]. *)

Class Scalar (D T : Type) : Type := {
  zero : T;
  one : T;
  add : T -> T -> T;
  sub : T -> T -> T;
  mul : T -> T -> T;
  div : T -> T -> T;
  opp : T -> T;
  cast : D -> T
}.

Declare Scope scalar_scope.
Delimit Scope scalar_scope with S.
Infix "+" := add : scalar_scope.
Infix "-" := sub : scalar_scope.
Infix "*" := mul : scalar_scope.
Infix "/" := div : scalar_scope.
Notation "- x" := (opp x) : scalar_scope.

(** ** Fixed-size arrays

    [T a[2]], [T a[3]], [T a[4]] and the parameter blocks behind
    [const T* const] pointers.  [at_n a i] reads [a[i]]; [set_n a i v] is the
    store [a[i] = v]. *)

Record Vec1 (A : Type) : Type := mkVec1 { v1_0 : A }.
Record Vec2 (A : Type) : Type := mkVec2 { v2_0 : A; v2_1 : A }.
Record Vec3 (A : Type) : Type := mkVec3 { v3_0 : A; v3_1 : A; v3_2 : A }.
Record Vec4 (A : Type) : Type :=
  mkVec4 { v4_0 : A; v4_1 : A; v4_2 : A; v4_3 : A }.

Definition at1 {A} (a : Vec1 A) (i : nat) : A := v1_0 a.

Definition set1 {A} (a : Vec1 A) (i : nat) (v : A) : Vec1 A := mkVec1 v.

Definition at2 {A} (a : Vec2 A) (i : nat) : A :=
  match i with
  | 0 => v2_0 a
  | _ => v2_1 a
  end.

Definition set2 {A} (a : Vec2 A) (i : nat) (v : A) : Vec2 A :=
  match i with
  | 0 => mkVec2 v (v2_1 a)
  | _ => mkVec2 (v2_0 a) v
  end.

Definition at3 {A} (a : Vec3 A) (i : nat) : A :=
  match i with
  | 0 => v3_0 a
  | 1 => v3_1 a
  | _ => v3_2 a
  end.

Definition set3 {A} (a : Vec3 A) (i : nat) (v : A) : Vec3 A :=
  match i with
  | 0 => mkVec3 v (v3_1 a) (v3_2 a)
  | 1 => mkVec3 (v3_0 a) v (v3_2 a)
  | _ => mkVec3 (v3_0 a) (v3_1 a) v
  end.

Definition at4 {A} (a : Vec4 A) (i : nat) : A :=
  match i with
  | 0 => v4_0 a
  | 1 => v4_1 a
  | 2 => v4_2 a
  | _ => v4_3 a
  end.

Definition map2 {A B} (f : A -> B) (a : Vec2 A) : Vec2 B :=
  mkVec2 (f (v2_0 a)) (f (v2_1 a)).

Definition map3 {A B} (f : A -> B) (a : Vec3 A) : Vec3 B :=
  mkVec3 (f (v3_0 a)) (f (v3_1 a)) (f (v3_2 a)).

Definition map4 {A B} (f : A -> B) (a : Vec4 A) : Vec4 B :=
  mkVec4 (f (v4_0 a)) (f (v4_1 a)) (f (v4_2 a)) (f (v4_3 a)).

(** ** Eigen's fixed-size 3x3 matrices

    A matrix is kept as its three rows; [coeff M i j] is [M(i, j)].  The
    products are the textbook ones. *)

Definition Matrix3 (A : Type) : Type := Vec3 (Vec3 A).

Definition coeff {A} (M : Matrix3 A) (i j : nat) : A := at3 (at3 M i) j.

Definition col {A} (M : Matrix3 A) (j : nat) : Vec3 A :=
  mkVec3 (coeff M 0 j) (coeff M 1 j) (coeff M 2 j).

Definition transpose {A} (M : Matrix3 A) : Matrix3 A :=
  mkVec3 (col M 0) (col M 1) (col M 2).

(** [Eigen::Matrix<T, 3, 3, Eigen::RowMajor>] seen through [data()]: the
    coefficient [(i, j)] lives in cell [3 * i + j] of the buffer, a map from
    offsets to values. *)
Definition RowMajor_of_data {A} (data : nat -> A) : Matrix3 A :=
  let cell i j := data (3 * i + j) in
  mkVec3 (mkVec3 (cell 0 0) (cell 0 1) (cell 0 2))
         (mkVec3 (cell 1 0) (cell 1 1) (cell 1 2))
         (mkVec3 (cell 2 0) (cell 2 1) (cell 2 2)).

Section LinearAlgebra.
Context {D T : Type} {num : Scalar D T}.
Local Open Scope scalar_scope.

(** [a.transpose() * b] for two 3-vectors. *)
Definition dot (a b : Vec3 T) : T :=
  v3_0 a * v3_0 b + v3_1 a * v3_1 b + v3_2 a * v3_2 b.

(** [M * v]. *)
Definition mat_vec (M : Matrix3 T) (v : Vec3 T) : Vec3 T :=
  mkVec3 (dot (at3 M 0) v) (dot (at3 M 1) v) (dot (at3 M 2) v).

(** [A * B]. *)
Definition mat_mul (A B : Matrix3 T) : Matrix3 T :=
  let row i := mkVec3 (dot (at3 A i) (col B 0))
                      (dot (at3 A i) (col B 1))
                      (dot (at3 A i) (col B 2)) in
  mkVec3 (row 0) (row 1) (row 2).

(** Componentwise sum of two 3-vectors and the scaling [s * t]. *)
Definition vadd3 (a b : Vec3 T) : Vec3 T :=
  mkVec3 (v3_0 a + v3_0 b) (v3_1 a + v3_1 b) (v3_2 a + v3_2 b).

Definition scale3 (s : T) (t : Vec3 T) : Vec3 T :=
  mkVec3 (s * v3_0 t) (s * v3_1 t) (s * v3_2 t).

(** The cross-product matrix of [t]. *)
Definition skew (t : Vec3 T) : Matrix3 T :=
  mkVec3 (mkVec3 zero (- v3_2 t) (v3_1 t))
         (mkVec3 (v3_2 t) zero (- v3_0 t))
         (mkVec3 (- v3_1 t) (v3_0 t) zero).

(** [(x(0), x(1), 1)]. *)
Definition homogeneous (x : Vec2 D) : Vec3 T :=
  mkVec3 (cast (v2_0 x)) (cast (v2_1 x)) one.
End LinearAlgebra.

(** ** The external capabilities

    [CameraModel] is the template parameter of the three reprojection
    functors: a parameter count and the projection [WorldToImage], which returns the
    pair written through its two output pointers. *)

Record CameraModel (T : Type) : Type := {
  num_params : nat;
  WorldToImage : list T -> T -> T -> T * T
}.

(** The three routines of ceres/rotation.h the functors call.  Each returns
    the array it writes through its output pointer; [QuaternionToRotation]
    fills a flat buffer of nine cells, returned as the map from a cell's
    offset to its value. *)
Record Rotation (T : Type) : Type := {
  UnitQuaternionRotatePoint : Vec4 T -> Vec3 T -> Vec3 T;
  QuaternionProduct : Vec4 T -> Vec4 T -> Vec4 T;
  QuaternionToRotation : Vec4 T -> nat -> T
}.

(** What [ceres::AutoDiffCostFunction<F, kNumResiduals, N0, N1, ...>] tells
    the solver about a functor. *)
Record AutoDiffCostFunction (F : Type) : Type := {
  functor : F;
  num_residuals : nat;
  parameter_block_sizes : list nat
}.

(** ** The four functors *)

Section CostFunctions.
Context {D T : Type} {num : Scalar D T}.
Variable ceres : Rotation T.
Local Open Scope scalar_scope.

(** *** BundleAdjustmentCostFunction<CameraModel>

    The object holds [point2D_].  [operator()] returns its [bool] together
    with the residual buffer after the call; [residuals] is the buffer
    before it. *)

Record BundleAdjustmentCostFunction : Type := {
  ba_point2D_ : Vec2 D
}.

Definition BundleAdjustmentCostFunction_Create
    (CM : CameraModel T) (point2D : Vec2 D)
    : AutoDiffCostFunction BundleAdjustmentCostFunction :=
  {| functor := {| ba_point2D_ := point2D |};
     num_residuals := 2;
     parameter_block_sizes := [4; 3; 3; num_params CM]%nat |}.

Definition BundleAdjustmentCostFunction_call
    (CM : CameraModel T) (self : BundleAdjustmentCostFunction)
    (qvec : Vec4 T) (tvec : Vec3 T) (point3D : Vec3 T)
    (camera_params : list T) (residuals : Vec2 T) : bool * Vec2 T :=
  (* Rotate and translate. *)
  let point3D_local := UnitQuaternionRotatePoint ceres qvec point3D in
  let point3D_local :=
    set3 point3D_local 0 (at3 point3D_local 0 + at3 tvec 0) in
  let point3D_local :=
    set3 point3D_local 1 (at3 point3D_local 1 + at3 tvec 1) in
  let point3D_local :=
    set3 point3D_local 2 (at3 point3D_local 2 + at3 tvec 2) in
  (* Normalize to image plane. *)
  let point3D_local :=
    set3 point3D_local 0 (at3 point3D_local 0 / at3 point3D_local 2) in
  let point3D_local :=
    set3 point3D_local 1 (at3 point3D_local 1 / at3 point3D_local 2) in
  (* Distort and transform to pixel space. *)
  let '(x, y) :=
    WorldToImage CM camera_params
                 (at3 point3D_local 0) (at3 point3D_local 1) in
  (* Re-projection error. *)
  let residuals := set2 residuals 0 (x - cast (at2 (ba_point2D_ self) 0)) in
  let residuals := set2 residuals 1 (y - cast (at2 (ba_point2D_ self) 1)) in
  (true, residuals).

(** *** BundleAdjustmentConstantPoseCostFunction<CameraModel> *)

Record BundleAdjustmentConstantPoseCostFunction : Type := {
  cp_qvec_ : Vec4 D;
  cp_tvec_ : Vec3 D;
  cp_point2D_ : Vec2 D
}.

Definition BundleAdjustmentConstantPoseCostFunction_Create
    (CM : CameraModel T) (qvec : Vec4 D) (tvec : Vec3 D) (point2D : Vec2 D)
    : AutoDiffCostFunction BundleAdjustmentConstantPoseCostFunction :=
  {| functor := {| cp_qvec_ := qvec; cp_tvec_ := tvec;
                   cp_point2D_ := point2D |};
     num_residuals := 2;
     parameter_block_sizes := [3; num_params CM]%nat |}.

Definition BundleAdjustmentConstantPoseCostFunction_call
    (CM : CameraModel T) (self : BundleAdjustmentConstantPoseCostFunction)
    (point3D : Vec3 T) (camera_params : list T) (residuals : Vec2 T)
    : bool * Vec2 T :=
  let qvec := mkVec4 (cast (at4 (cp_qvec_ self) 0))
                     (cast (at4 (cp_qvec_ self) 1))
                     (cast (at4 (cp_qvec_ self) 2))
                     (cast (at4 (cp_qvec_ self) 3)) in
  (* Rotate and translate. *)
  let point3D_local := UnitQuaternionRotatePoint ceres qvec point3D in
  let point3D_local :=
    set3 point3D_local 0
         (at3 point3D_local 0 + cast (at3 (cp_tvec_ self) 0)) in
  let point3D_local :=
    set3 point3D_local 1
         (at3 point3D_local 1 + cast (at3 (cp_tvec_ self) 1)) in
  let point3D_local :=
    set3 point3D_local 2
         (at3 point3D_local 2 + cast (at3 (cp_tvec_ self) 2)) in
  (* Normalize to image plane. *)
  let point3D_local :=
    set3 point3D_local 0 (at3 point3D_local 0 / at3 point3D_local 2) in
  let point3D_local :=
    set3 point3D_local 1 (at3 point3D_local 1 / at3 point3D_local 2) in
  (* Distort and transform to pixel space. *)
  let '(x, y) :=
    WorldToImage CM camera_params
                 (at3 point3D_local 0) (at3 point3D_local 1) in
  (* Re-projection error. *)
  let residuals := set2 residuals 0 (x - cast (at2 (cp_point2D_ self) 0)) in
  let residuals := set2 residuals 1 (y - cast (at2 (cp_point2D_ self) 1)) in
  (true, residuals).

(** *** RigBundleAdjustmentCostFunction<CameraModel> *)

Record RigBundleAdjustmentCostFunction : Type := {
  rig_point2D_ : Vec2 D
}.

Definition RigBundleAdjustmentCostFunction_Create
    (CM : CameraModel T) (point2D : Vec2 D)
    : AutoDiffCostFunction RigBundleAdjustmentCostFunction :=
  {| functor := {| rig_point2D_ := point2D |};
     num_residuals := 2;
     parameter_block_sizes := [4; 3; 4; 3; 3; num_params CM]%nat |}.

Definition RigBundleAdjustmentCostFunction_call
    (CM : CameraModel T) (self : RigBundleAdjustmentCostFunction)
    (rig_qvec : Vec4 T) (rig_tvec : Vec3 T)
    (rel_qvec : Vec4 T) (rel_tvec : Vec3 T)
    (point3D : Vec3 T) (camera_params : list T) (residuals : Vec2 T)
    : bool * Vec2 T :=
  (* Concatenate rotations. *)
  let qvec := QuaternionProduct ceres rel_qvec rig_qvec in
  (* Concatenate translations. *)
  let tvec := UnitQuaternionRotatePoint ceres rel_qvec rig_tvec in
  let tvec := set3 tvec 0 (at3 tvec 0 + at3 rel_tvec 0) in
  let tvec := set3 tvec 1 (at3 tvec 1 + at3 rel_tvec 1) in
  let tvec := set3 tvec 2 (at3 tvec 2 + at3 rel_tvec 2) in
  (* Rotate and translate. *)
  let point3D_local := UnitQuaternionRotatePoint ceres qvec point3D in
  let point3D_local :=
    set3 point3D_local 0 (at3 point3D_local 0 + at3 tvec 0) in
  let point3D_local :=
    set3 point3D_local 1 (at3 point3D_local 1 + at3 tvec 1) in
  let point3D_local :=
    set3 point3D_local 2 (at3 point3D_local 2 + at3 tvec 2) in
  (* Normalize to image plane. *)
  let point3D_local :=
    set3 point3D_local 0 (at3 point3D_local 0 / at3 point3D_local 2) in
  let point3D_local :=
    set3 point3D_local 1 (at3 point3D_local 1 / at3 point3D_local 2) in
  (* Distort and transform to pixel space. *)
  let '(x, y) :=
    WorldToImage CM camera_params
                 (at3 point3D_local 0) (at3 point3D_local 1) in
  (* Re-projection error. *)
  let residuals := set2 residuals 0 (x - cast (at2 (rig_point2D_ self) 0)) in
  let residuals := set2 residuals 1 (y - cast (at2 (rig_point2D_ self) 1)) in
  (true, residuals).

(** *** RelativePoseCostFunction *)

Record RelativePoseCostFunction : Type := {
  x1_ : Vec2 D;
  x2_ : Vec2 D
}.

Definition RelativePoseCostFunction_Create (x1 x2 : Vec2 D)
    : AutoDiffCostFunction RelativePoseCostFunction :=
  {| functor := {| x1_ := x1; x2_ := x2 |};
     num_residuals := 1;
     parameter_block_sizes := [4; 3]%nat |}.

Definition RelativePoseCostFunction_call
    (self : RelativePoseCostFunction)
    (qvec : Vec4 T) (tvec : Vec3 T) (residuals : Vec1 T) : bool * Vec1 T :=
  let R := RowMajor_of_data (QuaternionToRotation ceres qvec) in
  (* Matrix representation of the cross product t x R. *)
  let t_x :=
    mkVec3 (mkVec3 zero (- at3 tvec 2) (at3 tvec 1))
           (mkVec3 (at3 tvec 2) zero (- at3 tvec 0))
           (mkVec3 (- at3 tvec 1) (at3 tvec 0) zero) in
  (* Essential matrix. *)
  let E := mat_mul t_x R in
  (* Homogeneous image coordinates. *)
  let x1_h := mkVec3 (cast (at2 (x1_ self) 0)) (cast (at2 (x1_ self) 1)) one in
  let x2_h := mkVec3 (cast (at2 (x2_ self) 0)) (cast (at2 (x2_ self) 1)) one in
  (* Squared sampson error. *)
  let Ex1 := mat_vec E x1_h in
  let Etx2 := mat_vec (transpose E) x2_h in
  let x2tEx1 := dot x2_h Ex1 in
  let residuals :=
    set1 residuals 0
         (x2tEx1 * x2tEx1 /
          (at3 Ex1 0 * at3 Ex1 0 + at3 Ex1 1 * at3 Ex1 1 +
           at3 Etx2 0 * at3 Etx2 0 + at3 Etx2 1 * at3 Etx2 1)) in
  (true, residuals).

End CostFunctions.

(** ** A model of the external capabilities

    Used to run the functors on concrete inputs; the theorems below are
    stated for every [Rotation] and every [CameraModel]. *)

Section ExternalModels.
Context {D T : Type} {num : Scalar D T}.
Local Open Scope scalar_scope.

(** [T(2)]. *)
Definition two : T := one + one.

(** Modelled from the spec: the rotation/composition capability of
    section 6, [rotateVectorByUnitQuaternion] (ceres/rotation.h is an
    external library and not among the sources).  The quaternion is
    (w, x, y, z) and is not renormalized. *)
Definition ceres_UnitQuaternionRotatePoint (q : Vec4 T) (pt : Vec3 T)
    : Vec3 T :=
  let t2 := at4 q 0 * at4 q 1 in
  let t3 := at4 q 0 * at4 q 2 in
  let t4 := at4 q 0 * at4 q 3 in
  let t5 := - at4 q 1 * at4 q 1 in
  let t6 := at4 q 1 * at4 q 2 in
  let t7 := at4 q 1 * at4 q 3 in
  let t8 := - at4 q 2 * at4 q 2 in
  let t9 := at4 q 2 * at4 q 3 in
  let t1 := - at4 q 3 * at4 q 3 in
  mkVec3
    (two * ((t8 + t1) * at3 pt 0 + (t6 - t4) * at3 pt 1
            + (t3 + t7) * at3 pt 2) + at3 pt 0)
    (two * ((t4 + t6) * at3 pt 0 + (t5 + t1) * at3 pt 1
            + (t9 - t2) * at3 pt 2) + at3 pt 1)
    (two * ((t7 - t3) * at3 pt 0 + (t2 + t9) * at3 pt 1
            + (t5 + t8) * at3 pt 2) + at3 pt 2).

(** Modelled from the spec: [quaternionProduct] of section 6, the
    Hamilton product [z * w]. *)
Definition ceres_QuaternionProduct (z w : Vec4 T) : Vec4 T :=
  mkVec4
    (at4 z 0 * at4 w 0 - at4 z 1 * at4 w 1 - at4 z 2 * at4 w 2
     - at4 z 3 * at4 w 3)
    (at4 z 0 * at4 w 1 + at4 z 1 * at4 w 0 + at4 z 2 * at4 w 3
     - at4 z 3 * at4 w 2)
    (at4 z 0 * at4 w 2 - at4 z 1 * at4 w 3 + at4 z 2 * at4 w 0
     + at4 z 3 * at4 w 1)
    (at4 z 0 * at4 w 3 + at4 z 1 * at4 w 2 - at4 z 2 * at4 w 1
     + at4 z 3 * at4 w 0).

(** Modelled from the spec: [quaternionToRotationMatrix] of section 6.
    The nine cells are written row by row, each divided by the squared
    norm of the quaternion. *)
Definition ceres_QuaternionToRotation (q : Vec4 T) (offset : nat) : T :=
  let a := at4 q 0 in
  let b := at4 q 1 in
  let c := at4 q 2 in
  let d := at4 q 3 in
  let aa := a * a in
  let ab := a * b in
  let ac := a * c in
  let ad := a * d in
  let bb := b * b in
  let bc := b * c in
  let bd := b * d in
  let cc := c * c in
  let cd := c * d in
  let dd := d * d in
  let normalizer := one / (aa + bb + cc + dd) in
  nth offset
  [ (aa + bb - cc - dd) * normalizer;
    (two * (bc - ad)) * normalizer;
    (two * (ac + bd)) * normalizer;
    (two * (ad + bc)) * normalizer;
    (aa - bb + cc - dd) * normalizer;
    (two * (cd - ab)) * normalizer;
    (two * (bd - ac)) * normalizer;
    (two * (ab + cd)) * normalizer;
    (aa - bb - cc + dd) * normalizer ] zero.

Definition ceres_rotation : Rotation T :=
  {| UnitQuaternionRotatePoint := ceres_UnitQuaternionRotatePoint;
     QuaternionProduct := ceres_QuaternionProduct;
     QuaternionToRotation := ceres_QuaternionToRotation |}.

(** Modelled from the spec: one camera projection capability of section 6
    (the camera models are not among the sources): a pinhole camera with
    intrinsics [f; cx; cy]. *)
Definition SimplePinholeCameraModel : CameraModel T :=
  {| num_params := 3;
     WorldToImage := fun params u v =>
       let f := nth 0 params zero in
       let c1 := nth 1 params zero in
       let c2 := nth 2 params zero in
       (f * u + c1, f * v + c2) |}.
End ExternalModels.

(** ** The two instantiations of [T] *)

(** [T = double]: IEEE binary64 arithmetic. *)
#[export] Instance double_scalar : Scalar float float :=
  {| zero := 0%float;
     one := 1%float;
     add := PrimFloat.add;
     sub := PrimFloat.sub;
     mul := PrimFloat.mul;
     div := PrimFloat.div;
     opp := PrimFloat.opp;
     cast := fun d => d |}.

(** Exact rational arithmetic. *)
#[export] Instance Qc_scalar : Scalar Qc Qc :=
  {| zero := Q2Qc 0;
     one := Q2Qc 1;
     add := Qcplus;
     sub := Qcminus;
     mul := Qcmult;
     div := Qcdiv;
     opp := Qcopp;
     cast := fun d => d |}.

(** ** The residuals as the specification words them *)

Section Specification.
Context {D T : Type} {num : Scalar D T}.
Variable ceres : Rotation T.
Local Open Scope scalar_scope.

(** P = rotate(q, X) + t. *)
Definition camera_frame_point (q : Vec4 T) (t X : Vec3 T) : Vec3 T :=
  vadd3 (UnitQuaternionRotatePoint ceres q X) t.

(** Perspective divide, projection, comparison with the observation. *)
Definition reprojection_residual (CM : CameraModel T) (obs : Vec2 D)
    (q : Vec4 T) (t X : Vec3 T) (params : list T) : Vec2 T :=
  let P := camera_frame_point q t X in
  let local_x := v3_0 P / v3_2 P in
  let local_y := v3_1 P / v3_2 P in
  let xy := WorldToImage CM params local_x local_y in
  mkVec2 (fst xy - cast (v2_0 obs)) (snd xy - cast (v2_1 obs)).

(** The rig composition. *)
Definition combinedOrientation (relOrientation rigOrientation : Vec4 T)
    : Vec4 T :=
  QuaternionProduct ceres relOrientation rigOrientation.

Definition combinedTranslation (relOrientation : Vec4 T)
    (relTranslation rigTranslation : Vec3 T) : Vec3 T :=
  vadd3 (UnitQuaternionRotatePoint ceres relOrientation rigTranslation)
        relTranslation.

(** The essential matrix and the Sampson error. *)
Definition rotation_matrix (q : Vec4 T) : Matrix3 T :=
  RowMajor_of_data (QuaternionToRotation ceres q).

Definition essential_matrix (q : Vec4 T) (t : Vec3 T) : Matrix3 T :=
  mat_mul (skew t) (rotation_matrix q).

Definition sampson_numerator (x1 x2 : Vec2 D) (q : Vec4 T) (t : Vec3 T)
    : T :=
  dot (homogeneous x2) (mat_vec (essential_matrix q t) (homogeneous x1)).

Definition sampson_denominator (x1 x2 : Vec2 D) (q : Vec4 T) (t : Vec3 T)
    : T :=
  let Ex1 := mat_vec (essential_matrix q t) (homogeneous x1) in
  let Etx2 := mat_vec (transpose (essential_matrix q t)) (homogeneous x2) in
  v3_0 Ex1 * v3_0 Ex1 + v3_1 Ex1 * v3_1 Ex1
  + v3_0 Etx2 * v3_0 Etx2 + v3_1 Etx2 * v3_1 Etx2.

Definition sampson_residual (x1 x2 : Vec2 D) (q : Vec4 T) (t : Vec3 T)
    : T :=
  let n := sampson_numerator x1 x2 q t in
  n * n / sampson_denominator x1 x2 q t.

(** The value [EpipolarResidual] leaves in [residuals[0]]. *)
Definition EpipolarResidual (x1 x2 : Vec2 D) (q : Vec4 T) (t : Vec3 T)
    : T :=
  at1 (snd (RelativePoseCostFunction_call ceres
              {| x1_ := x1; x2_ := x2 |} q t (mkVec1 zero))) 0.
End Specification.

(** The identity quaternion (1, 0, 0, 0) and the translation (0, 0, 0). *)
Definition identity_quaternion {D T} {num : Scalar D T} : Vec4 T :=
  mkVec4 one zero zero zero.

Definition zero_translation {D T} {num : Scalar D T} : Vec3 T :=
  mkVec3 zero zero zero.

(** ** Concrete inputs

    Exact ones, with [rat n d] the rational [n / d]: a camera with a unit
    orientation, and a second view translated along the x axis. *)

Definition rat (n : Z) (d : positive) : Qc := Q2Qc (n # d).

Definition sample_observation : Vec2 Qc := mkVec2 (rat 72 1) (rat 106 1).

Definition sample_orientation : Vec4 Qc :=
  mkVec4 (rat 3 5) (rat 4 5) (rat 0 1) (rat 0 1).

Definition sample_translation : Vec3 Qc :=
  mkVec3 (rat 1 2) (rat (-2) 1) (rat 3 1).

Definition sample_point : Vec3 Qc := mkVec3 (rat 1 1) (rat 2 1) (rat 4 1).

Definition sample_intrinsics : list Qc := [rat 100 1; rat 50 1; rat 60 1].

Definition sideways_translation : Vec3 Qc :=
  mkVec3 (rat 1 1) (rat 0 1) (rat 0 1).

(** Two pairs of normalized image points: the first pair lies on a common
    epipolar line of the sideways motion, the second does not. *)
Definition matched_x1 : Vec2 Qc := mkVec2 (rat 1 1) (rat 2 1).
Definition matched_x2 : Vec2 Qc := mkVec2 (rat 3 1) (rat 2 1).
Definition unmatched_x2 : Vec2 Qc := mkVec2 (rat 3 1) (rat 5 1).

(** In [double]s: a camera moving forward along its optical axis, and the
    image point at which both views see the direction of motion (the
    epipole, here the principal point). *)
Definition forward_translation : Vec3 float :=
  mkVec3 0%float 0%float 1%float.

Definition epipole : Vec2 float := mkVec2 0%float 0%float.

(** ** Notions of the further properties *)

Section Notions.
Context {D T : Type} {num : Scalar D T}.
Variable ceres : Rotation T.
Local Open Scope scalar_scope.

(** w^2 + x^2 + y^2 + z^2, and the quaternions the optimizer is meant to
    supply. *)
Definition squared_norm (q : Vec4 T) : T :=
  v4_0 q * v4_0 q + v4_1 q * v4_1 q + v4_2 q * v4_2 q + v4_3 q * v4_3 q.

Definition unit_quaternion (q : Vec4 T) : Prop := squared_norm q = one.

(** The vector part of q v q*, with no division by the norm. *)
Definition sandwich (q : Vec4 T) (v : Vec3 T) : Vec3 T :=
  let a := v4_0 q in
  let b := v4_1 q in
  let c := v4_2 q in
  let d := v4_3 q in
  mkVec3
    ((a * a + b * b - c * c - d * d) * v3_0 v
     + two * (b * c - a * d) * v3_1 v + two * (a * c + b * d) * v3_2 v)
    (two * (a * d + b * c) * v3_0 v
     + (a * a - b * b + c * c - d * d) * v3_1 v
     + two * (c * d - a * b) * v3_2 v)
    (two * (b * d - a * c) * v3_0 v + two * (a * b + c * d) * v3_1 v
     + (a * a - b * b - c * c + d * d) * v3_2 v).

(** The pixel the camera model predicts for [X] seen from the pose
    (q, t). *)
Definition predicted_pixel (CM : CameraModel T) (q : Vec4 T) (t X : Vec3 T)
    (params : list T) : T * T :=
  let P := camera_frame_point ceres q t X in
  WorldToImage CM params (v3_0 P / v3_2 P) (v3_1 P / v3_2 P).

(** The point taken into the frame of the rig, then into the frame of the
    camera within the rig. *)
Definition two_step_point (rig_qvec : Vec4 T) (rig_tvec : Vec3 T)
    (rel_qvec : Vec4 T) (rel_tvec : Vec3 T) (point3D : Vec3 T) : Vec3 T :=
  let in_rig := vadd3 (UnitQuaternionRotatePoint ceres rig_qvec point3D)
                      rig_tvec in
  vadd3 (UnitQuaternionRotatePoint ceres rel_qvec in_rig) rel_tvec.
End Notions.

(** A [double], as the specification of IEEE arithmetic sees it, whose sign
    bit is clear unless it is a NaN. *)
Definition sign_clear (f : spec_float) : Prop :=
  match f with
  | S754_zero s | S754_infinity s | S754_finite s _ _ => s = false
  | S754_nan => True
  end.

(** More exact inputs: a camera within the rig, and the observation the
    sample camera predicts for the sample point. *)
Definition sample_rel_orientation : Vec4 Qc :=
  mkVec4 (rat 3 5) (rat 0 1) (rat 0 1) (rat 4 5).

Definition sample_rel_translation : Vec3 Qc :=
  mkVec3 (rat 1 4) (rat 1 3) (rat (-1) 2).

Definition matching_observation : Vec2 Qc :=
  mkVec2 (rat 1700 19) (rat (-2060) 19).

(** ** Two numeric types at once

    The same functor is evaluated with plain numbers and with
    differentiable numbers.  [h] relates two instantiations of [T] when it
    commutes with every operation of the interface. *)

Section Morphisms.
Context {D T T' : Type} {numT : Scalar D T} {numT' : Scalar D T'}.
Local Open Scope scalar_scope.

Record scalar_morphism (h : T -> T') : Prop := {
  h_zero : h zero = zero;
  h_one : h one = one;
  h_add : forall a b, h (a + b) = h a + h b;
  h_sub : forall a b, h (a - b) = h a - h b;
  h_mul : forall a b, h (a * b) = h a * h b;
  h_div : forall a b, h (a / b) = h a / h b;
  h_opp : forall a, h (- a) = - h a;
  h_cast : forall d, h (cast d) = cast d
}.

(** The external routines of the two instantiations agree through [h]. *)
Record rotation_morphism (h : T -> T') (ceres : Rotation T)
    (ceres' : Rotation T') : Prop := {
  h_rotate : forall q v,
    UnitQuaternionRotatePoint ceres' (map4 h q) (map3 h v)
    = map3 h (UnitQuaternionRotatePoint ceres q v);
  h_product : forall z w,
    QuaternionProduct ceres' (map4 h z) (map4 h w)
    = map4 h (QuaternionProduct ceres z w);
  h_to_rotation : forall q offset,
    QuaternionToRotation ceres' (map4 h q) offset
    = h (QuaternionToRotation ceres q offset)
}.

Definition camera_morphism (h : T -> T') (CM : CameraModel T)
    (CM' : CameraModel T') : Prop :=
  forall params u v,
    WorldToImage CM' (map h params) (h u) (h v)
    = (h (fst (WorldToImage CM params u v)),
       h (snd (WorldToImage CM params u v))).
End Morphisms.

(** Modelled from the spec: the differentiable dual-number representation
    of section 5 (ceres::Jet is an external type), here an exact value with
    one partial derivative. *)
Definition Dual : Type := (Qc * Qc)%type.

Definition Dual_scalar : Scalar Qc Dual :=
  {| zero := (Q2Qc 0, Q2Qc 0);
     one := (Q2Qc 1, Q2Qc 0);
     add := fun a b => (Qcplus (fst a) (fst b), Qcplus (snd a) (snd b));
     sub := fun a b => (Qcminus (fst a) (fst b), Qcminus (snd a) (snd b));
     mul := fun a b =>
       (Qcmult (fst a) (fst b),
        Qcplus (Qcmult (fst a) (snd b)) (Qcmult (snd a) (fst b)));
     div := fun a b =>
       (Qcdiv (fst a) (fst b),
        Qcdiv (Qcminus (snd a) (Qcmult (Qcdiv (fst a) (fst b)) (snd b)))
              (fst b));
     opp := fun a => (Qcopp (fst a), Qcopp (snd a));
     cast := fun d => (d, Q2Qc 0) |}.

(** The value of a dual number, and a plain number seen as a dual one with
    the given partial derivative. *)
Definition value (a : Dual) : Qc := fst a.

Definition seeded (partial : Qc) (a : Qc) : Dual := (a, partial).

(** ** Properties that hold for every numeric type

    Nothing is assumed of the arithmetic, of the rotation routines or of
    the camera model: these are statements about what the evaluators
    compute with them. *)

Section Structural.
Context {D T : Type} {num : Scalar D T}.
Variable ceres : Rotation T.
Variable CM : CameraModel T.
Local Open Scope scalar_scope.

Ltac run_evaluator :=
  cbv beta delta [BundleAdjustmentCostFunction_call
                  BundleAdjustmentConstantPoseCostFunction_call
                  RigBundleAdjustmentCostFunction_call
                  RelativePoseCostFunction_call
                  reprojection_residual camera_frame_point
                  combinedOrientation combinedTranslation vadd3];
  cbn [at1 at2 at3 at4 set1 set2 set3 v2_0 v2_1 v3_0 v3_1 v3_2
       ba_point2D_ cp_point2D_ cp_qvec_ cp_tvec_ rig_point2D_ x1_ x2_].

(** The stores into [point3D_local] amount to adding [tvec] and dividing
    the first two cells by the third, which the two divisions leave
    untouched. *)
Lemma standard_pipeline (obs : Vec2 D) (qvec : Vec4 T)
    (tvec point3D : Vec3 T) (camera_params : list T) (residuals : Vec2 T) :
  BundleAdjustmentCostFunction_call ceres CM {| ba_point2D_ := obs |}
    qvec tvec point3D camera_params residuals
  = (true, reprojection_residual ceres CM obs qvec tvec point3D
             camera_params).
Proof.
  run_evaluator.
  destruct (UnitQuaternionRotatePoint ceres qvec point3D) as [p0 p1 p2].
  cbn [v3_0 v3_1 v3_2].
  destruct (WorldToImage CM camera_params _ _) as [x y].
  reflexivity.
Qed.

(** C1.  For every orientation [q], translation [t], point [X] and
    intrinsics [params], the evaluator of [BundleAdjustmentCostFunction]
    forms the camera-frame point P = rotate(q, X) + t, divides P.x and P.y
    by P.z without any test on P.z, hands the two quotients and [params] to
    [WorldToImage], and writes (x - obs.x, y - obs.y) to the residual
    buffer, where [obs] is the observation captured at construction. *)
Theorem C1_reprojection_residual_algorithm :
  forall (obs : Vec2 D) (q : Vec4 T) (t X : Vec3 T) (params : list T)
         (residuals : Vec2 T),
    let P := vadd3 (UnitQuaternionRotatePoint ceres q X) t in
    let xy := WorldToImage CM params (v3_0 P / v3_2 P) (v3_1 P / v3_2 P) in
    BundleAdjustmentCostFunction_call ceres CM
      (functor (BundleAdjustmentCostFunction_Create CM obs))
      q t X params residuals
    = (true, mkVec2 (fst xy - cast (v2_0 obs)) (snd xy - cast (v2_1 obs))).
Proof.
  intros obs q t X params residuals P xy.
  cbn [functor BundleAdjustmentCostFunction_Create].
  rewrite standard_pipeline. reflexivity.
Qed.

(** The Eigen expressions of the epipolar evaluator are the Sampson
    residual of the specification. *)
Lemma epipolar_pipeline (x1 x2 : Vec2 D) (qvec : Vec4 T) (tvec : Vec3 T)
    (residuals : Vec1 T) :
  RelativePoseCostFunction_call ceres {| x1_ := x1; x2_ := x2 |}
    qvec tvec residuals
  = (true, mkVec1 (sampson_residual ceres x1 x2 qvec tvec)).
Proof. destruct tvec as [t0 t1 t2]. reflexivity. Qed.

Lemma EpipolarResidual_sampson (x1 x2 : Vec2 D) (q : Vec4 T) (t : Vec3 T) :
  EpipolarResidual ceres x1 x2 q t = sampson_residual ceres x1 x2 q t.
Proof. unfold EpipolarResidual. rewrite epipolar_pipeline. reflexivity. Qed.

(** C2.  For every orientation [q] and translation [t], the evaluator of
    [RelativePoseCostFunction] takes R from [QuaternionToRotation], builds
    the skew-symmetric matrix of [t], forms E = [t]x R, appends 1 to the two
    correspondences, and writes the single residual
    n^2 / (Ex1.x^2 + Ex1.y^2 + Etx2.x^2 + Etx2.y^2)
    with Ex1 = E x1_h, Etx2 = E^T x2_h and n = x2_h^T E x1_h. *)
Theorem C2_epipolar_residual_algorithm :
  forall (x1 x2 : Vec2 D) (q : Vec4 T) (t : Vec3 T) (residuals : Vec1 T),
    let R := rotation_matrix ceres q in
    let E := mat_mul (skew t) R in
    let x1_h := homogeneous x1 in
    let x2_h := homogeneous x2 in
    let Ex1 := mat_vec E x1_h in
    let Etx2 := mat_vec (transpose E) x2_h in
    let n := dot x2_h Ex1 in
    RelativePoseCostFunction_call ceres
      (functor (RelativePoseCostFunction_Create x1 x2)) q t residuals
    = (true,
       mkVec1 (n * n / (v3_0 Ex1 * v3_0 Ex1 + v3_1 Ex1 * v3_1 Ex1
                        + v3_0 Etx2 * v3_0 Etx2 + v3_1 Etx2 * v3_1 Etx2))).
Proof.
  intros x1 x2 q t residuals R E x1_h x2_h Ex1 Etx2 n.
  cbn [functor RelativePoseCostFunction_Create].
  rewrite epipolar_pipeline. reflexivity.
Qed.

(** The rig evaluator is the standard one at the composed pose. *)
Lemma rig_pipeline (obs : Vec2 D) (rig_qvec : Vec4 T) (rig_tvec : Vec3 T)
    (rel_qvec : Vec4 T) (rel_tvec : Vec3 T) (point3D : Vec3 T)
    (camera_params : list T) (residuals : Vec2 T) :
  RigBundleAdjustmentCostFunction_call ceres CM {| rig_point2D_ := obs |}
    rig_qvec rig_tvec rel_qvec rel_tvec point3D camera_params residuals
  = (true,
     reprojection_residual ceres CM obs
       (combinedOrientation ceres rel_qvec rig_qvec)
       (combinedTranslation ceres rel_qvec rel_tvec rig_tvec)
       point3D camera_params).
Proof.
  run_evaluator.
  destruct (UnitQuaternionRotatePoint ceres rel_qvec rig_tvec)
    as [c0 c1 c2].
  destruct (UnitQuaternionRotatePoint ceres _ point3D) as [p0 p1 p2].
  cbn [v3_0 v3_1 v3_2].
  destruct (WorldToImage CM camera_params _ _) as [x y].
  reflexivity.
Qed.

(** C3.  For every rig pose, relative pose, point and intrinsics, the
    evaluator of [RigBundleAdjustmentCostFunction] forms
    combinedOrientation = quaternionProduct(relOrientation, rigOrientation)
    and combinedTranslation = rotate(relOrientation, rigTranslation)
    + relTranslation, and then runs exactly the pipeline of the standard
    evaluator at that combined pose. *)
Theorem C3_rig_residual_algorithm :
  forall (obs : Vec2 D) (rigOrientation : Vec4 T) (rigTranslation : Vec3 T)
         (relOrientation : Vec4 T) (relTranslation : Vec3 T) (X : Vec3 T)
         (params : list T) (residuals : Vec2 T),
    let combinedOrientation :=
      QuaternionProduct ceres relOrientation rigOrientation in
    let combinedTranslation :=
      vadd3 (UnitQuaternionRotatePoint ceres relOrientation rigTranslation)
            relTranslation in
    RigBundleAdjustmentCostFunction_call ceres CM
      (functor (RigBundleAdjustmentCostFunction_Create CM obs))
      rigOrientation rigTranslation relOrientation relTranslation
      X params residuals
    = BundleAdjustmentCostFunction_call ceres CM
        (functor (BundleAdjustmentCostFunction_Create CM obs))
        combinedOrientation combinedTranslation X params residuals.
Proof.
  intros. cbn [functor RigBundleAdjustmentCostFunction_Create
               BundleAdjustmentCostFunction_Create].
  rewrite rig_pipeline, standard_pipeline. reflexivity.
Qed.

(** The fixed-pose evaluator is the standard one at the converted
    constants. *)
Lemma constant_pose_pipeline (q : Vec4 D) (t : Vec3 D) (obs : Vec2 D)
    (point3D : Vec3 T) (camera_params : list T) (residuals : Vec2 T) :
  BundleAdjustmentConstantPoseCostFunction_call ceres CM
    {| cp_qvec_ := q; cp_tvec_ := t; cp_point2D_ := obs |}
    point3D camera_params residuals
  = (true,
     reprojection_residual ceres CM obs (map4 cast q) (map3 cast t)
       point3D camera_params).
Proof.
  run_evaluator. unfold map4, map3.
  destruct (UnitQuaternionRotatePoint ceres _ point3D) as [p0 p1 p2].
  cbn [v3_0 v3_1 v3_2].
  destruct (WorldToImage CM camera_params _ _) as [x y].
  reflexivity.
Qed.

(** C5.  For every pose (q, t), point [X] and intrinsics, the fixed-pose
    functor constructed with the constants (q, t) produces at (X, params)
    exactly the residual the standard functor produces at the variable
    parameters (q, t, X, params), for the same observation. *)
Theorem C5_fixed_pose_equivalence :
  forall (q : Vec4 D) (t : Vec3 D) (obs : Vec2 D) (X : Vec3 T)
         (params : list T) (residuals : Vec2 T),
    BundleAdjustmentConstantPoseCostFunction_call ceres CM
      (functor (BundleAdjustmentConstantPoseCostFunction_Create CM q t obs))
      X params residuals
    = BundleAdjustmentCostFunction_call ceres CM
        (functor (BundleAdjustmentCostFunction_Create CM obs))
        (map4 cast q) (map3 cast t) X params residuals.
Proof.
  intros. cbn [functor BundleAdjustmentConstantPoseCostFunction_Create
               BundleAdjustmentCostFunction_Create].
  rewrite constant_pose_pipeline, standard_pipeline. reflexivity.
Qed.

(** C8.  Each functor declares to the solver the residual size and the
    ordered parameter block sizes: 2 and (4, 3, 3, num_params) for the
    standard one; 2 and (3, num_params) for the fixed-pose one; 2 and
    (4, 3, 4, 3, 3, num_params) for the rig one; 1 and (4, 3) for the
    epipolar one. *)
Theorem C8_declared_sizes :
  forall (q : Vec4 D) (t : Vec3 D) (point2D x1 x2 : Vec2 D),
    let n := num_params CM in
    let ba := BundleAdjustmentCostFunction_Create CM point2D in
    let cp := BundleAdjustmentConstantPoseCostFunction_Create
                CM q t point2D in
    let rig := RigBundleAdjustmentCostFunction_Create CM point2D in
    let rel := RelativePoseCostFunction_Create x1 x2 in
    (num_residuals ba = 2%nat
     /\ parameter_block_sizes ba = [4; 3; 3; n]%nat)
    /\ (num_residuals cp = 2%nat
        /\ parameter_block_sizes cp = [3; n]%nat)
    /\ (num_residuals rig = 2%nat
        /\ parameter_block_sizes rig = [4; 3; 4; 3; 3; n]%nat)
    /\ (num_residuals rel = 1%nat
        /\ parameter_block_sizes rel = [4; 3]%nat).
Proof. intros. repeat split. Qed.

(** C9.  On every input, each of the four evaluators returns [true], and
    the residual buffer it returns is fully written: it is the same
    whatever the buffer held before the call.  No input, degenerate or
    not, leads to another outcome. *)
Theorem C9_always_success :
  (forall self q t X params,
      exists r, forall residuals,
        BundleAdjustmentCostFunction_call ceres CM self
          q t X params residuals = (true, r))
  /\ (forall self X params,
      exists r, forall residuals,
        BundleAdjustmentConstantPoseCostFunction_call ceres CM self
          X params residuals = (true, r))
  /\ (forall self rig_q rig_t rel_q rel_t X params,
      exists r, forall residuals,
        RigBundleAdjustmentCostFunction_call ceres CM self
          rig_q rig_t rel_q rel_t X params residuals = (true, r))
  /\ (forall self q t,
      exists r, forall residuals,
        RelativePoseCostFunction_call ceres self q t residuals = (true, r)).
Proof.
  repeat split.
  - intros [obs] q t X params. eexists. intros residuals.
    apply standard_pipeline.
  - intros [q t obs] X params. eexists. intros residuals.
    apply constant_pose_pipeline.
  - intros [obs] rig_q rig_t rel_q rel_t X params. eexists.
    intros residuals. apply rig_pipeline.
  - intros [x1 x2] q t. eexists. intros residuals.
    apply epipolar_pipeline.
Qed.
End Structural.

Unset Implicit Arguments.

(** ** Properties of exact arithmetic

    The algebraic relations between the residuals are statements about the
    formulas: they hold when [T] computes exactly, that is when its
    operations obey the laws of a (commutative) ring, of a field, of an
    ordered field.  Each law is a hypothesis of this section, and a theorem
    depends on those it uses.  Nothing is assumed about the value of a
    division by zero unless it is said. *)

Section ExactArithmetic.
Context {D T : Type} {num : Scalar D T}.
Local Open Scope scalar_scope.

Hypothesis scalar_ring : ring_theory zero one add mul sub opp (@eq T).
Add Ring scalar_ring_tactic : scalar_ring.

(** *** The rotation model obeys the identity laws *)

Lemma ceres_QuaternionProduct_identity (q : Vec4 T) :
  ceres_QuaternionProduct identity_quaternion q = q.
Proof.
  destruct q as [a b c d]. unfold ceres_QuaternionProduct. cbn.
  f_equal; ring.
Qed.

Lemma ceres_UnitQuaternionRotatePoint_identity (v : Vec3 T) :
  ceres_UnitQuaternionRotatePoint identity_quaternion v = v.
Proof.
  destruct v as [a b c]. unfold ceres_UnitQuaternionRotatePoint, two. cbn.
  f_equal; ring.
Qed.

Lemma vadd3_zero (v : Vec3 T) : vadd3 v zero_translation = v.
Proof. destruct v as [a b c]. unfold vadd3. cbn. f_equal; ring. Qed.

Section RigEquivalence.
Variable ceres : Rotation T.
Variable CM : CameraModel T.

(** Two laws of the quaternion algebra the rotation routines are
    required to satisfy. *)
Hypothesis product_identity :
  forall q, QuaternionProduct ceres identity_quaternion q = q.
Hypothesis rotate_identity :
  forall v, UnitQuaternionRotatePoint ceres identity_quaternion v = v.

(** X13.  When [T] computes exactly (its operations obey the laws of a
    commutative ring) and the rotation routines obey the two identity
    laws, (1, 0, 0, 0) * q = q and rotate((1, 0, 0, 0), v) = v, then for
    every rig pose, point and intrinsics the rig evaluator with
    relOrientation the identity quaternion (1, 0, 0, 0) and relTranslation
    (0, 0, 0) produces exactly the residual of the standard evaluator at
    (rigOrientation, rigTranslation), for the same observation, point and
    intrinsics. *)
Theorem rig_identity_equivalence_exact :
  forall (obs : Vec2 D) (rigOrientation : Vec4 T)
         (rigTranslation X : Vec3 T) (params : list T)
         (residuals : Vec2 T),
    RigBundleAdjustmentCostFunction_call ceres CM
      (functor (RigBundleAdjustmentCostFunction_Create CM obs))
      rigOrientation rigTranslation identity_quaternion zero_translation
      X params residuals
    = BundleAdjustmentCostFunction_call ceres CM
        (functor (BundleAdjustmentCostFunction_Create CM obs))
        rigOrientation rigTranslation X params residuals.
Proof.
  intros. cbn [functor RigBundleAdjustmentCostFunction_Create
               BundleAdjustmentCostFunction_Create].
  rewrite rig_pipeline, standard_pipeline.
  unfold combinedOrientation, combinedTranslation.
  rewrite product_identity, rotate_identity, vadd3_zero.
  reflexivity.
Qed.
End RigEquivalence.

(** *** The Sampson error under a scaling of the translation *)

Section Sampson.
Variable ceres : Rotation T.

Ltac expand_sampson q t :=
  unfold sampson_numerator, sampson_denominator, essential_matrix;
  generalize (rotation_matrix ceres q);
  intros [[r00 r01 r02] [r10 r11 r12] [r20 r21 r22]];
  destruct t as [t0 t1 t2];
  unfold homogeneous, scale3, mat_vec, mat_mul, transpose, col, coeff,
         skew, dot;
  cbn [at3 v3_0 v3_1 v3_2].

Lemma sampson_numerator_scale (x1 x2 : Vec2 D) (q : Vec4 T) (t : Vec3 T)
    (s : T) :
  sampson_numerator ceres x1 x2 q (scale3 s t)
  = s * sampson_numerator ceres x1 x2 q t.
Proof. expand_sampson q t. ring. Qed.

Lemma sampson_denominator_scale (x1 x2 : Vec2 D) (q : Vec4 T)
    (t : Vec3 T) (s : T) :
  sampson_denominator ceres x1 x2 q (scale3 s t)
  = s * s * sampson_denominator ceres x1 x2 q t.
Proof. expand_sampson q t. ring. Qed.

(** The numerator can be read on either side: x2^T (E x1) is
    (E^T x2)^T x1. *)
Lemma sampson_numerator_transpose (x1 x2 : Vec2 D) (q : Vec4 T)
    (t : Vec3 T) :
  sampson_numerator ceres x1 x2 q t
  = dot (mat_vec (transpose (essential_matrix ceres q t))
                 (homogeneous x2))
        (homogeneous x1).
Proof. expand_sampson q t. ring. Qed.
End Sampson.

(** *** Division

    [x / y] is the quotient whenever [y] is not zero. *)

Hypothesis div_mul : forall x y : T, y <> zero -> x / y * y = x.

Lemma div_unique (x y z : T) : y <> zero -> z * y = x -> x / y = z.
Proof.
  intros Hy Hz.
  pose proof (div_mul one y Hy) as Hi.
  pose proof (div_mul x y Hy) as Hx.
  transitivity (x / y * y * (one / y)).
  - transitivity (x / y * (one / y * y)); [rewrite Hi|]; ring.
  - rewrite Hx, <- Hz.
    transitivity (z * (one / y * y)); [|rewrite Hi]; ring.
Qed.

Lemma mul_nonzero (a b : T) : a <> zero -> b <> zero -> a * b <> zero.
Proof.
  intros Ha Hb Hab. apply Hb.
  pose proof (div_mul one a Ha) as Hi.
  transitivity (one / a * a * b); [rewrite Hi; ring|].
  transitivity (one / a * (a * b)); [ring|].
  rewrite Hab. ring.
Qed.

Lemma div_scale (x y s : T) :
  s <> zero -> y <> zero -> (s * s * x) / (s * s * y) = x / y.
Proof.
  intros Hs Hy. apply div_unique.
  - auto using mul_nonzero.
  - transitivity (s * s * (x / y * y)); [ring|].
    rewrite (div_mul x y Hy). reflexivity.
Qed.

Section SampsonField.
Variable ceres : Rotation T.

(** Where the denominator does not vanish, the residual does not see
    the scale of the translation at all. *)
Lemma EpipolarResidual_scale_invariant (x1 x2 : Vec2 D) (q : Vec4 T)
    (t : Vec3 T) (s : T) :
  s <> zero ->
  sampson_denominator ceres x1 x2 q t <> zero ->
  EpipolarResidual ceres x1 x2 q (scale3 s t)
  = EpipolarResidual ceres x1 x2 q t.
Proof.
  intros Hs Hd.
  rewrite (@EpipolarResidual_sampson _ _ _ ceres x1 x2 q t),
          (@EpipolarResidual_sampson _ _ _ ceres x1 x2 q (scale3 s t)).
  unfold sampson_residual; cbv zeta.
  rewrite sampson_numerator_scale, sampson_denominator_scale.
  rewrite <- (div_scale (sampson_numerator ceres x1 x2 q t
                         * sampson_numerator ceres x1 x2 q t) _ s Hs Hd).
  f_equal. ring.
Qed.

(** Whether a division by zero returns zero does not depend on what is
    divided: true of Rocq's fields, where it always does, and of
    floating-point numbers, where it never does. *)
Hypothesis div_zero_uniform :
  forall x y : T, x / zero = zero -> y / zero = zero.

(** C7, as the code has it.  The epipolar evaluator puts no unit-norm
    constraint on the translation.  When [T] computes exactly (ring laws,
    [x / y * y = x] for nonzero [y], and a division by zero that returns
    zero for every numerator or for none), then for every orientation q,
    translation t and nonzero scalar s the evaluation at (q, s t) is the
    evaluation at (q, t) with n multiplied by s and the denominator by
    s^2, and the residual at (q, s t) is zero exactly when the residual at
    (q, t) is zero. *)
Theorem C7_translation_scale :
  forall (x1 x2 : Vec2 D) (q : Vec4 T) (t : Vec3 T) (s : T),
    s <> zero ->
    sampson_numerator ceres x1 x2 q (scale3 s t)
    = s * sampson_numerator ceres x1 x2 q t
    /\ sampson_denominator ceres x1 x2 q (scale3 s t)
       = s * s * sampson_denominator ceres x1 x2 q t
    /\ (EpipolarResidual ceres x1 x2 q (scale3 s t) = zero
        <-> EpipolarResidual ceres x1 x2 q t = zero).
Proof.
  intros x1 x2 q t s Hs.
  split; [apply sampson_numerator_scale|].
  split; [apply sampson_denominator_scale|].
  destruct (classic (sampson_denominator ceres x1 x2 q t = zero))
    as [Hd | Hd].
  - rewrite (@EpipolarResidual_sampson _ _ _ ceres x1 x2 q t),
            (@EpipolarResidual_sampson _ _ _ ceres x1 x2 q (scale3 s t)).
    unfold sampson_residual; cbv zeta.
    rewrite sampson_denominator_scale, Hd.
    replace (s * s * zero) with zero by ring.
    split; apply div_zero_uniform.
  - rewrite (EpipolarResidual_scale_invariant x1 x2 q t s Hs Hd).
    reflexivity.
Qed.
End SampsonField.

(** *** Order *)

Section Ordered.
Variable le : T -> T -> Prop.
Variable ceres : Rotation T.

Hypothesis le_total : forall x y, le x y \/ le y x.
Hypothesis le_antisym : forall x y, le x y -> le y x -> x = y.
Hypothesis le_trans : forall x y z, le x y -> le y z -> le x z.
Hypothesis le_add : forall x y z, le x y -> le (x + z) (y + z).
Hypothesis le_mul : forall x y, le zero x -> le zero y -> le zero (x * y).

Lemma opp_nonneg (x : T) : le x zero -> le zero (- x).
Proof.
  intros H. apply (le_add _ _ (- x)) in H.
  replace (x + - x) with zero in H by ring.
  replace (zero + - x) with (- x) in H by ring.
  exact H.
Qed.

Lemma square_nonneg (x : T) : le zero (x * x).
Proof.
  destruct (le_total zero x) as [H | H].
  - apply le_mul; exact H.
  - replace (x * x) with (- x * - x) by ring.
    apply le_mul; apply opp_nonneg; exact H.
Qed.

Lemma add_nonneg (x y : T) : le zero x -> le zero y -> le zero (x + y).
Proof.
  intros Hx Hy. apply (le_trans _ _ _ Hy).
  apply (le_add _ _ y) in Hx.
  replace (zero + y) with y in Hx by ring. exact Hx.
Qed.

Lemma sampson_denominator_nonneg (x1 x2 : Vec2 D) (q : Vec4 T)
    (t : Vec3 T) :
  le zero (sampson_denominator ceres x1 x2 q t).
Proof.
  unfold sampson_denominator.
  repeat apply add_nonneg; apply square_nonneg.
Qed.

(** X12.  When [T] is an ordered field, for every orientation q and
    translation t at which the Sampson denominator
    Ex1.x^2 + Ex1.y^2 + Etx2.x^2 + Etx2.y^2 is not zero, the epipolar
    residual is nonnegative: a square divided by a sum of squares. *)
Theorem epipolar_residual_nonnegative_ordered_field :
  forall (x1 x2 : Vec2 D) (q : Vec4 T) (t : Vec3 T),
    sampson_denominator ceres x1 x2 q t <> zero ->
    le zero (EpipolarResidual ceres x1 x2 q t).
Proof.
  intros x1 x2 q t Hd. rewrite EpipolarResidual_sampson.
  unfold sampson_residual; cbv zeta.
  set (n := sampson_numerator ceres x1 x2 q t).
  set (d := sampson_denominator ceres x1 x2 q t) in *.
  destruct (le_total zero (n * n / d)) as [H | H]; [exact H|].
  assert (Hz : n * n = zero).
  { apply le_antisym; [|apply square_nonneg].
    pose proof (le_mul _ _ (opp_nonneg _ H)
                       (sampson_denominator_nonneg x1 x2 q t)) as Hm.
    fold d in Hm.
    replace (- (n * n / d) * d) with (- (n * n / d * d)) in Hm by ring.
    rewrite (div_mul (n * n) d Hd) in Hm.
    apply (le_add _ _ (n * n)) in Hm.
    replace (zero + n * n) with (n * n) in Hm by ring.
    replace (- (n * n) + n * n) with zero in Hm by ring.
    exact Hm. }
  rewrite Hz.
  rewrite (div_unique zero d zero Hd) by ring.
  destruct (le_total zero zero); assumption.
Qed.
End Ordered.
End ExactArithmetic.

(** ** Exact rationals obey the laws *)

Section RationalLaws.
Local Open Scope Qc_scope.

Lemma Qc_scalar_ring :
  ring_theory (zero (T := Qc)) one add mul sub opp (@eq Qc).
Proof. exact Qcrt. Qed.

Lemma Qc_div_mul : forall x y : Qc, y <> zero -> div x y * y = x.
Proof. intros x y Hy. cbn in *. field. exact Hy. Qed.

Lemma Qc_div_zero_uniform :
  forall x y : Qc, div x zero = zero -> div y zero = zero.
Proof.
  intros x y _. cbn. unfold Qcdiv.
  replace (/ Q2Qc 0) with (Q2Qc 0) by (apply Qc_is_canon; reflexivity).
  ring.
Qed.

Lemma Qc_le_total : forall x y : Qc, x <= y \/ y <= x.
Proof.
  intros x y. destruct (Qclt_le_dec x y) as [H | H].
  - left. apply Qclt_le_weak. exact H.
  - right. exact H.
Qed.

Lemma Qc_le_add : forall x y z : Qc, x <= y -> add x z <= add y z.
Proof.
  intros x y z H. cbn. apply Qcplus_le_compat; [exact H | apply Qcle_refl].
Qed.

Lemma Qc_le_mul :
  forall x y : Qc, zero <= x -> zero <= y -> zero <= mul x y.
Proof.
  intros x y Hx Hy. cbn in *.
  replace (Q2Qc 0) with (Q2Qc 0 * y) by ring.
  apply Qcmult_le_compat_r; assumption.
Qed.
End RationalLaws.

Ltac Qc_compute :=
  lazymatch goal with
  | |- @eq Qc _ _ => apply Qc_is_canon; vm_compute; reflexivity
  | |- not (@eq Qc _ _) =>
      let H := fresh in
      intro H; apply (f_equal this) in H; vm_compute in H; discriminate H
  end.

(** ** The theorems at concrete inputs *)

Lemma rig_identity_equivalence_exact_witness :
  RigBundleAdjustmentCostFunction_call ceres_rotation
    SimplePinholeCameraModel
    (functor (RigBundleAdjustmentCostFunction_Create
                SimplePinholeCameraModel sample_observation))
    sample_orientation sample_translation
    identity_quaternion zero_translation
    sample_point sample_intrinsics (mkVec2 (rat 0 1) (rat 0 1))
  = BundleAdjustmentCostFunction_call ceres_rotation
      SimplePinholeCameraModel
      (functor (BundleAdjustmentCostFunction_Create
                  SimplePinholeCameraModel sample_observation))
      sample_orientation sample_translation
      sample_point sample_intrinsics (mkVec2 (rat 0 1) (rat 0 1)).
Proof.
  apply (rig_identity_equivalence_exact Qc_scalar_ring ceres_rotation
           SimplePinholeCameraModel
           (ceres_QuaternionProduct_identity Qc_scalar_ring)
           (ceres_UnitQuaternionRotatePoint_identity Qc_scalar_ring)).
Defined.

Lemma C7_translation_scale_witness :
  EpipolarResidual ceres_rotation matched_x1 matched_x2
    identity_quaternion (scale3 (rat 3 1) sideways_translation) = rat 0 1
  /\ EpipolarResidual ceres_rotation matched_x1 matched_x2
       identity_quaternion sideways_translation = rat 0 1.
Proof.
  assert (H : EpipolarResidual ceres_rotation matched_x1 matched_x2
                identity_quaternion sideways_translation = rat 0 1)
    by Qc_compute.
  split; [|exact H].
  apply (C7_translation_scale Qc_scalar_ring Qc_div_mul ceres_rotation
           Qc_div_zero_uniform matched_x1 matched_x2 identity_quaternion
           sideways_translation (rat 3 1)); [Qc_compute | exact H].
Defined.

Lemma epipolar_residual_nonnegative_ordered_field_witness :
  Qcle (rat 0 1)
       (EpipolarResidual ceres_rotation matched_x1 unmatched_x2
          sample_orientation sample_translation).
Proof.
  apply (epipolar_residual_nonnegative_ordered_field Qc_scalar_ring
           Qc_div_mul Qcle
           ceres_rotation Qc_le_total Qcle_antisym Qcle_trans Qc_le_add
           Qc_le_mul).
  Qc_compute.
Defined.

(** ** In [double]s *)

(** C6 as stated fails.  The second camera moves forward along the optical
    axis (unit translation, identity orientation) and each view sees the
    point at its epipole: the epipolar constraint holds exactly, but the
    Sampson denominator is zero as well and the residual is 0 / 0, a NaN. *)
Lemma C6_epipolar_zero_error_counterexample :
  dot (homogeneous epipole)
      (mat_vec (mat_mul (skew forward_translation)
                        (rotation_matrix ceres_rotation identity_quaternion))
               (homogeneous epipole)) = 0%float
  /\ EpipolarResidual ceres_rotation epipole epipole
       identity_quaternion forward_translation <> 0%float.
Proof.
  split.
  - vm_compute. reflexivity.
  - intro H. apply (f_equal PrimFloat.is_nan) in H. vm_compute in H.
    discriminate H.
Qed.

(** Zero divided by a positive [double], infinity included, is zero. *)
Lemma zero_div_positive (d : float) :
  PrimFloat.ltb 0 d = true -> PrimFloat.div 0 d = 0%float.
Proof.
  intros H. rewrite ltb_spec in H.
  rewrite <- (SF2Prim_Prim2SF (0 / d)), div_spec.
  change (Prim2SF 0) with (S754_zero false) in *.
  destruct (Prim2SF d) as [sd | sd | | sd md ed]; cbn in H |- *.
  - discriminate H.
  - destruct sd; [discriminate H | reflexivity].
  - discriminate H.
  - destruct sd; [discriminate H | reflexivity].
Qed.

(** With a positive denominator the zero of the constraint is the zero of
    the residual in [double]s too, whatever the rotation routine returns. *)
Lemma epipolar_zero_error_double (ceres : Rotation float)
    (x1 x2 : Vec2 float) (q : Vec4 float) (t : Vec3 float) :
  dot (homogeneous x2)
      (mat_vec (mat_mul (skew t) (rotation_matrix ceres q))
               (homogeneous x1)) = 0%float ->
  PrimFloat.ltb 0 (sampson_denominator ceres x1 x2 q t) = true ->
  EpipolarResidual ceres x1 x2 q t = 0%float.
Proof.
  intros Hn Hd. rewrite EpipolarResidual_sampson.
  unfold sampson_residual, sampson_numerator, essential_matrix; cbv zeta.
  rewrite Hn. apply (zero_div_positive _ Hd).
Qed.

(** The rig evaluator with the identity relative pose and the standard
    evaluator agree on a sample input in [double]s. *)
Example rig_identity_double :
  let q := mkVec4 0.5%float 0.5%float 0.5%float 0.5%float in
  let t := mkVec3 0.5%float (-2)%float 3%float in
  let X := mkVec3 1%float 2%float 4%float in
  let params := [100%float; 50%float; 60%float] in
  let obs := mkVec2 3%float 4%float in
  RigBundleAdjustmentCostFunction_call ceres_rotation
    SimplePinholeCameraModel {| rig_point2D_ := obs |}
    q t identity_quaternion zero_translation X params
    (mkVec2 0%float 0%float)
  = BundleAdjustmentCostFunction_call ceres_rotation
      SimplePinholeCameraModel {| ba_point2D_ := obs |}
      q t X params (mkVec2 0%float 0%float).
Proof. vm_compute. reflexivity. Qed.

(** A point on the camera's principal plane (depth 0): the evaluator
    divides by zero, reports success and leaves infinities in the
    residual. *)
Example zero_depth_reports_success :
  BundleAdjustmentCostFunction_call ceres_rotation SimplePinholeCameraModel
    {| ba_point2D_ := mkVec2 3%float 4%float |}
    identity_quaternion zero_translation
    (mkVec3 1%float 2%float 0%float)
    [100%float; 50%float; 60%float] (mkVec2 7%float 7%float)
  = (true, mkVec2 infinity infinity).
Proof. vm_compute. reflexivity. Qed.

(** The same point at depth 4 projects to (75, 110); the observation is
    (3, 4). *)
Example regular_depth_residual :
  BundleAdjustmentCostFunction_call ceres_rotation SimplePinholeCameraModel
    {| ba_point2D_ := mkVec2 3%float 4%float |}
    identity_quaternion zero_translation
    (mkVec3 1%float 2%float 4%float)
    [100%float; 50%float; 60%float] (mkVec2 7%float 7%float)
  = (true, mkVec2 72%float 106%float).
Proof. vm_compute. reflexivity. Qed.

(** A correspondence off the epipolar line under the forward motion. *)
Example forward_motion_residual :
  RelativePoseCostFunction_call ceres_rotation
    {| x1_ := mkVec2 1%float 0%float; x2_ := mkVec2 0%float 1%float |}
    identity_quaternion forward_translation (mkVec1 7%float)
  = (true, mkVec1 0.5%float).
Proof. vm_compute. reflexivity. Qed.

(** ** In exact rationals *)

(** The residual of the unmatched pair, before and after the translation
    is tripled. *)
Example unmatched_pair_residual :
  EpipolarResidual ceres_rotation matched_x1 unmatched_x2
    sample_orientation sample_translation = rat 638401 821998
  /\ EpipolarResidual ceres_rotation matched_x1 unmatched_x2
       sample_orientation (scale3 (rat 3 1) sample_translation)
     = rat 638401 821998.
Proof. split; Qc_compute. Qed.

(** The sample point seen by the sample camera: it lies at
    (3/2, -32/5, 19/5) in the camera frame and projects to
    (1700/19, -2060/19). *)
Example sample_reprojection_residual :
  let r := BundleAdjustmentCostFunction_call ceres_rotation
             SimplePinholeCameraModel
             {| ba_point2D_ := sample_observation |}
             sample_orientation sample_translation sample_point
             sample_intrinsics (mkVec2 (rat 0 1) (rat 0 1)) in
  fst r = true
  /\ at2 (snd r) 0 = rat 332 19
  /\ at2 (snd r) 1 = rat (-4074) 19.
Proof. repeat split; Qc_compute. Qed.

(** ** Further properties of exact arithmetic *)

Section FurtherExact.
Context {D T : Type} {num : Scalar D T}.
Local Open Scope scalar_scope.

Hypothesis scalar_ring : ring_theory zero one add mul sub opp (@eq T).
Add Ring further_ring_tactic : scalar_ring.

(** *** The rotation model: linearity and composition *)

Ltac by_components :=
  repeat match goal with
         | v : Vec3 _ |- _ => destruct v
         | q : Vec4 _ |- _ => destruct q
         end;
  unfold ceres_UnitQuaternionRotatePoint, ceres_QuaternionProduct, sandwich,
         squared_norm, vadd3, scale3, zero_translation, identity_quaternion,
         two;
  cbn [at3 at4 v3_0 v3_1 v3_2 v4_0 v4_1 v4_2 v4_3];
  try (f_equal; ring).

Lemma ceres_rotate_add (q : Vec4 T) (a b : Vec3 T) :
  ceres_UnitQuaternionRotatePoint q (vadd3 a b)
  = vadd3 (ceres_UnitQuaternionRotatePoint q a)
          (ceres_UnitQuaternionRotatePoint q b).
Proof. by_components. Qed.

Lemma ceres_rotate_scale (q : Vec4 T) (s : T) (v : Vec3 T) :
  ceres_UnitQuaternionRotatePoint q (scale3 s v)
  = scale3 s (ceres_UnitQuaternionRotatePoint q v).
Proof. by_components. Qed.

Lemma ceres_rotate_zero (q : Vec4 T) :
  ceres_UnitQuaternionRotatePoint q zero_translation = zero_translation.
Proof. by_components. Qed.

Lemma ceres_QuaternionProduct_identity_r (q : Vec4 T) :
  ceres_QuaternionProduct q identity_quaternion = q.
Proof. by_components. Qed.

(** The unit-quaternion formula is q v q* plus (1 - |q|^2) v. *)
Lemma ceres_rotate_sandwich (q : Vec4 T) (v : Vec3 T) :
  ceres_UnitQuaternionRotatePoint q v
  = vadd3 (sandwich q v) (scale3 (one - squared_norm q) v).
Proof. by_components. Qed.

Lemma sandwich_product (qa qb : Vec4 T) (v : Vec3 T) :
  sandwich (ceres_QuaternionProduct qa qb) v = sandwich qa (sandwich qb v).
Proof. by_components. Qed.

Lemma squared_norm_product (qa qb : Vec4 T) :
  squared_norm (ceres_QuaternionProduct qa qb)
  = squared_norm qa * squared_norm qb.
Proof. by_components. ring. Qed.

Lemma ceres_rotate_unit (q : Vec4 T) (v : Vec3 T) :
  unit_quaternion q -> ceres_UnitQuaternionRotatePoint q v = sandwich q v.
Proof.
  intros Hq. rewrite ceres_rotate_sandwich. unfold unit_quaternion in Hq.
  rewrite Hq. destruct (sandwich q v) as [s0 s1 s2], v as [v0 v1 v2].
  unfold vadd3, scale3. cbn [v3_0 v3_1 v3_2]. f_equal; ring.
Qed.

Lemma ceres_rotate_compose (qa qb : Vec4 T) (v : Vec3 T) :
  unit_quaternion qa -> unit_quaternion qb ->
  ceres_UnitQuaternionRotatePoint (ceres_QuaternionProduct qa qb) v
  = ceres_UnitQuaternionRotatePoint qa
      (ceres_UnitQuaternionRotatePoint qb v).
Proof.
  intros Ha Hb.
  rewrite (ceres_rotate_unit qb v Hb), (ceres_rotate_unit qa _ Ha).
  rewrite <- sandwich_product. apply ceres_rotate_unit.
  unfold unit_quaternion in *.
  rewrite squared_norm_product, Ha, Hb. ring.
Qed.

Lemma vadd3_zero_l (v : Vec3 T) : vadd3 zero_translation v = v.
Proof. by_components. Qed.

Lemma vadd3_assoc (a b c : Vec3 T) :
  vadd3 a (vadd3 b c) = vadd3 (vadd3 a b) c.
Proof. by_components. Qed.

(** *** The reprojection evaluators *)

Section Reprojection.
Variable ceres : Rotation T.
Variable CM : CameraModel T.

(** X1.  The residual of the standard evaluator is (0, 0) exactly when the
    pixel the camera model predicts is the observation, converted to [T]. *)
Theorem reprojection_zero_iff_prediction :
  forall (obs : Vec2 D) (q : Vec4 T) (t X : Vec3 T) (params : list T)
         (residuals : Vec2 T),
    snd (BundleAdjustmentCostFunction_call ceres CM
           (functor (BundleAdjustmentCostFunction_Create CM obs))
           q t X params residuals) = mkVec2 zero zero
    <-> predicted_pixel ceres CM q t X params
        = (cast (v2_0 obs), cast (v2_1 obs)).
Proof.
  intros obs q t X params residuals.
  cbn [functor BundleAdjustmentCostFunction_Create].
  rewrite standard_pipeline. cbn [snd].
  unfold reprojection_residual, predicted_pixel; cbv zeta.
  destruct (WorldToImage CM params _ _) as [x y]. cbn [fst snd].
  split; intros H.
  - injection H as Hx Hy. f_equal.
    + transitivity (x - cast (v2_0 obs) + cast (v2_0 obs));
        [ring | rewrite Hx; ring].
    + transitivity (y - cast (v2_1 obs) + cast (v2_1 obs));
        [ring | rewrite Hy; ring].
  - injection H as -> ->. f_equal; ring.
Qed.

(** The rig evaluator when the rig frame is the world frame. *)
Section RigAtOrigin.
Hypothesis product_identity_r :
  forall q, QuaternionProduct ceres q identity_quaternion = q.
Hypothesis rotate_zero :
  forall q, UnitQuaternionRotatePoint ceres q zero_translation
            = zero_translation.

(** X2.  With the rig pose the identity (orientation (1, 0, 0, 0),
    translation (0, 0, 0)) the rig evaluator produces exactly the residual
    of the standard evaluator at the relative pose. *)
Theorem rig_at_origin_equivalence :
  forall (obs : Vec2 D) (relOrientation : Vec4 T)
         (relTranslation X : Vec3 T) (params : list T) (residuals : Vec2 T),
    RigBundleAdjustmentCostFunction_call ceres CM
      (functor (RigBundleAdjustmentCostFunction_Create CM obs))
      identity_quaternion zero_translation relOrientation relTranslation
      X params residuals
    = BundleAdjustmentCostFunction_call ceres CM
        (functor (BundleAdjustmentCostFunction_Create CM obs))
        relOrientation relTranslation X params residuals.
Proof.
  intros. cbn [functor RigBundleAdjustmentCostFunction_Create
               BundleAdjustmentCostFunction_Create].
  rewrite rig_pipeline, standard_pipeline.
  unfold combinedOrientation, combinedTranslation.
  rewrite product_identity_r, rotate_zero, vadd3_zero_l.
  reflexivity.
Qed.
End RigAtOrigin.

(** The composed pose against the two transforms applied in turn. *)
Section TwoStep.
Hypothesis rotate_compose :
  forall qa qb v,
    unit_quaternion qa -> unit_quaternion qb ->
    UnitQuaternionRotatePoint ceres (QuaternionProduct ceres qa qb) v
    = UnitQuaternionRotatePoint ceres qa
        (UnitQuaternionRotatePoint ceres qb v).
Hypothesis rotate_add :
  forall q a b,
    UnitQuaternionRotatePoint ceres q (vadd3 a b)
    = vadd3 (UnitQuaternionRotatePoint ceres q a)
            (UnitQuaternionRotatePoint ceres q b).

Lemma composed_pose_two_step (rig_qvec : Vec4 T) (rig_tvec : Vec3 T)
    (rel_qvec : Vec4 T) (rel_tvec : Vec3 T) (point3D : Vec3 T) :
  unit_quaternion rel_qvec -> unit_quaternion rig_qvec ->
  camera_frame_point ceres
    (combinedOrientation ceres rel_qvec rig_qvec)
    (combinedTranslation ceres rel_qvec rel_tvec rig_tvec) point3D
  = two_step_point ceres rig_qvec rig_tvec rel_qvec rel_tvec point3D.
Proof.
  intros Hrel Hrig.
  unfold camera_frame_point, combinedOrientation, combinedTranslation,
         two_step_point; cbv zeta.
  rewrite (rotate_compose _ _ _ Hrel Hrig), rotate_add, vadd3_assoc.
  reflexivity.
Qed.

(** X3.  For unit orientations the rig evaluator does what its comment
    says: the residual is that of the point taken first into the frame of
    the rig, rotate(rig_q, X) + rig_t, and from there into the frame of the
    camera, rotate(rel_q, .) + rel_t, then divided, projected and compared
    with the observation. *)
Theorem rig_two_step_transform :
  forall (obs : Vec2 D) (rig_qvec : Vec4 T) (rig_tvec : Vec3 T)
         (rel_qvec : Vec4 T) (rel_tvec : Vec3 T) (point3D : Vec3 T)
         (camera_params : list T) (residuals : Vec2 T),
    unit_quaternion rel_qvec -> unit_quaternion rig_qvec ->
    let in_rig :=
      vadd3 (UnitQuaternionRotatePoint ceres rig_qvec point3D) rig_tvec in
    let P := vadd3 (UnitQuaternionRotatePoint ceres rel_qvec in_rig)
                   rel_tvec in
    let xy := WorldToImage CM camera_params
                (v3_0 P / v3_2 P) (v3_1 P / v3_2 P) in
    RigBundleAdjustmentCostFunction_call ceres CM
      (functor (RigBundleAdjustmentCostFunction_Create CM obs))
      rig_qvec rig_tvec rel_qvec rel_tvec point3D camera_params residuals
    = (true, mkVec2 (fst xy - cast (v2_0 obs)) (snd xy - cast (v2_1 obs))).
Proof.
  intros obs rig_qvec rig_tvec rel_qvec rel_tvec point3D camera_params
         residuals Hrel Hrig in_rig P xy.
  cbn [functor RigBundleAdjustmentCostFunction_Create].
  rewrite rig_pipeline. unfold reprojection_residual; cbv zeta.
  rewrite (composed_pose_two_step _ _ _ _ _ Hrel Hrig).
  reflexivity.
Qed.
End TwoStep.
End Reprojection.

(** *** With division *)

Hypothesis div_mul : forall x y : T, y <> zero -> x / y * y = x.

Lemma div_cancel_l (s x y : T) :
  s <> zero -> y <> zero -> (s * x) / (s * y) = x / y.
Proof.
  intros Hs Hy. apply (div_unique scalar_ring div_mul).
  - apply (mul_nonzero scalar_ring div_mul); assumption.
  - transitivity (s * (x / y * y)); [ring|].
    rewrite (div_mul x y Hy). reflexivity.
Qed.

Lemma square_zero (n : T) : n * n = zero -> n = zero.
Proof.
  intros H. destruct (classic (n = zero)) as [Hn | Hn]; [exact Hn|].
  destruct (mul_nonzero scalar_ring div_mul n n Hn Hn H).
Qed.

Section ScaleGauge.
Variable ceres : Rotation T.
Variable CM : CameraModel T.

Hypothesis rotate_scale :
  forall q s v,
    UnitQuaternionRotatePoint ceres q (scale3 s v)
    = scale3 s (UnitQuaternionRotatePoint ceres q v).

(** X4.  The standard evaluator cannot see the global scale, nor the side
    of the camera the point is on: when the camera-frame depth P.z is not
    zero, multiplying both the translation and the point by any nonzero s,
    negative ones included, leaves the residual unchanged. *)
Theorem reprojection_scale_gauge :
  forall (obs : Vec2 D) (q : Vec4 T) (t X : Vec3 T) (params : list T)
         (residuals : Vec2 T) (s : T),
    s <> zero ->
    v3_2 (camera_frame_point ceres q t X) <> zero ->
    BundleAdjustmentCostFunction_call ceres CM
      (functor (BundleAdjustmentCostFunction_Create CM obs))
      q (scale3 s t) (scale3 s X) params residuals
    = BundleAdjustmentCostFunction_call ceres CM
        (functor (BundleAdjustmentCostFunction_Create CM obs))
        q t X params residuals.
Proof.
  intros obs q t X params residuals s Hs Hz.
  cbn [functor BundleAdjustmentCostFunction_Create].
  rewrite (standard_pipeline ceres CM obs q (scale3 s t) (scale3 s X)),
          (standard_pipeline ceres CM obs q t X).
  f_equal. unfold reprojection_residual, camera_frame_point in *.
  rewrite rotate_scale.
  destruct (UnitQuaternionRotatePoint ceres q X) as [p0 p1 p2].
  destruct t as [t0 t1 t2].
  unfold vadd3, scale3 in *. cbn [v3_0 v3_1 v3_2] in *.
  replace (s * p0 + s * t0) with (s * (p0 + t0)) by ring.
  replace (s * p1 + s * t1) with (s * (p1 + t1)) by ring.
  replace (s * p2 + s * t2) with (s * (p2 + t2)) by ring.
  rewrite !div_cancel_l by assumption.
  reflexivity.
Qed.
End ScaleGauge.

Section Epipolar.
Variable ceres : Rotation T.

(** X5.  Where the Sampson denominator is not zero, the epipolar residual
    is zero exactly when the correspondence satisfies the epipolar
    constraint x2_h^T ([t]x R) x1_h = 0. *)
Theorem epipolar_zero_iff_constraint :
  forall (x1 x2 : Vec2 D) (q : Vec4 T) (t : Vec3 T),
    sampson_denominator ceres x1 x2 q t <> zero ->
    (EpipolarResidual ceres x1 x2 q t = zero
     <-> dot (homogeneous x2)
             (mat_vec (mat_mul (skew t) (rotation_matrix ceres q))
                      (homogeneous x1)) = zero).
Proof.
  intros x1 x2 q t Hd. rewrite EpipolarResidual_sampson.
  unfold sampson_residual, sampson_numerator, essential_matrix; cbv zeta.
  set (n := dot _ _). set (d := sampson_denominator ceres x1 x2 q t) in *.
  split; intros H.
  - apply square_zero. rewrite <- (div_mul (n * n) d Hd), H. ring.
  - rewrite H. apply (div_unique scalar_ring div_mul); [exact Hd | ring].
Qed.

(** X6.  Where the Sampson denominator is not zero, the epipolar residual
    does not depend on the length or the sign of the translation: at
    (q, s t), s not zero, it is exactly the residual at (q, t). *)
Theorem epipolar_direction_only :
  forall (x1 x2 : Vec2 D) (q : Vec4 T) (t : Vec3 T) (s : T),
    s <> zero ->
    sampson_denominator ceres x1 x2 q t <> zero ->
    EpipolarResidual ceres x1 x2 q (scale3 s t)
    = EpipolarResidual ceres x1 x2 q t.
Proof.
  intros x1 x2 q t s Hs Hd.
  exact (EpipolarResidual_scale_invariant scalar_ring div_mul ceres
           x1 x2 q t s Hs Hd).
Qed.

(** X7.  At the translation (0, 0, 0) the epipolar evaluator divides zero
    by zero, whatever the orientation and the two points: the numerator
    x2_h^T E x1_h and the Sampson denominator both vanish. *)
Theorem epipolar_zero_translation :
  forall (x1 x2 : Vec2 D) (q : Vec4 T),
    sampson_numerator ceres x1 x2 q zero_translation = zero
    /\ sampson_denominator ceres x1 x2 q zero_translation = zero
    /\ EpipolarResidual ceres x1 x2 q zero_translation = zero / zero.
Proof.
  intros x1 x2 q.
  assert (Hn : sampson_numerator ceres x1 x2 q zero_translation = zero).
  { unfold sampson_numerator, essential_matrix.
    generalize (rotation_matrix ceres q).
    intros [[r00 r01 r02] [r10 r11 r12] [r20 r21 r22]].
    unfold homogeneous, mat_vec, mat_mul, col, coeff, skew, dot,
           zero_translation.
    cbn [at3 v3_0 v3_1 v3_2]. ring. }
  assert (Hd : sampson_denominator ceres x1 x2 q zero_translation = zero).
  { unfold sampson_denominator, essential_matrix.
    generalize (rotation_matrix ceres q).
    intros [[r00 r01 r02] [r10 r11 r12] [r20 r21 r22]].
    unfold homogeneous, mat_vec, mat_mul, transpose, col, coeff, skew, dot,
           zero_translation.
    cbn [at3 v3_0 v3_1 v3_2]. ring. }
  repeat split; [exact Hn | exact Hd |].
  rewrite EpipolarResidual_sampson. unfold sampson_residual; cbv zeta.
  rewrite Hn, Hd. f_equal. ring.
Qed.
End Epipolar.
End FurtherExact.

(** ** The further properties at concrete inputs *)

Lemma reprojection_zero_iff_prediction_witness :
  snd (BundleAdjustmentCostFunction_call ceres_rotation
         SimplePinholeCameraModel
         (functor (BundleAdjustmentCostFunction_Create
                     SimplePinholeCameraModel matching_observation))
         sample_orientation sample_translation sample_point
         sample_intrinsics (mkVec2 (rat 7 1) (rat 7 1)))
  = mkVec2 (rat 0 1) (rat 0 1).
Proof.
  apply (proj2 (reprojection_zero_iff_prediction Qc_scalar_ring
                  ceres_rotation SimplePinholeCameraModel
                  matching_observation sample_orientation
                  sample_translation sample_point sample_intrinsics
                  (mkVec2 (rat 7 1) (rat 7 1)))).
  unfold predicted_pixel. cbn [WorldToImage SimplePinholeCameraModel].
  apply f_equal2; Qc_compute.
Defined.

Lemma rig_at_origin_equivalence_witness :
  RigBundleAdjustmentCostFunction_call ceres_rotation
    SimplePinholeCameraModel
    (functor (RigBundleAdjustmentCostFunction_Create
                SimplePinholeCameraModel sample_observation))
    identity_quaternion zero_translation
    sample_rel_orientation sample_rel_translation
    sample_point sample_intrinsics (mkVec2 (rat 0 1) (rat 0 1))
  = BundleAdjustmentCostFunction_call ceres_rotation
      SimplePinholeCameraModel
      (functor (BundleAdjustmentCostFunction_Create
                  SimplePinholeCameraModel sample_observation))
      sample_rel_orientation sample_rel_translation
      sample_point sample_intrinsics (mkVec2 (rat 0 1) (rat 0 1)).
Proof.
  apply (rig_at_origin_equivalence Qc_scalar_ring ceres_rotation
           SimplePinholeCameraModel
           (ceres_QuaternionProduct_identity_r Qc_scalar_ring)
           (ceres_rotate_zero Qc_scalar_ring)).
Defined.

Lemma rig_two_step_transform_witness :
  let in_rig :=
    vadd3 (ceres_UnitQuaternionRotatePoint sample_orientation sample_point)
          sample_translation in
  let P := vadd3 (ceres_UnitQuaternionRotatePoint sample_rel_orientation
                    in_rig)
                 sample_rel_translation in
  let xy := WorldToImage SimplePinholeCameraModel sample_intrinsics
              (div (v3_0 P) (v3_2 P)) (div (v3_1 P) (v3_2 P)) in
  RigBundleAdjustmentCostFunction_call ceres_rotation
    SimplePinholeCameraModel
    (functor (RigBundleAdjustmentCostFunction_Create
                SimplePinholeCameraModel sample_observation))
    sample_orientation sample_translation
    sample_rel_orientation sample_rel_translation
    sample_point sample_intrinsics (mkVec2 (rat 0 1) (rat 0 1))
  = (true, mkVec2 (sub (fst xy) (v2_0 sample_observation))
                  (sub (snd xy) (v2_1 sample_observation))).
Proof.
  apply (rig_two_step_transform Qc_scalar_ring ceres_rotation
           SimplePinholeCameraModel
           (ceres_rotate_compose Qc_scalar_ring)
           (ceres_rotate_add Qc_scalar_ring)
           sample_observation sample_orientation sample_translation
           sample_rel_orientation sample_rel_translation
           sample_point sample_intrinsics (mkVec2 (rat 0 1) (rat 0 1)));
    unfold unit_quaternion; Qc_compute.
Defined.

Lemma reprojection_scale_gauge_witness :
  BundleAdjustmentCostFunction_call ceres_rotation SimplePinholeCameraModel
    (functor (BundleAdjustmentCostFunction_Create
                SimplePinholeCameraModel sample_observation))
    sample_orientation
    (scale3 (rat (-2) 1) sample_translation)
    (scale3 (rat (-2) 1) sample_point)
    sample_intrinsics (mkVec2 (rat 0 1) (rat 0 1))
  = BundleAdjustmentCostFunction_call ceres_rotation
      SimplePinholeCameraModel
      (functor (BundleAdjustmentCostFunction_Create
                  SimplePinholeCameraModel sample_observation))
      sample_orientation sample_translation sample_point
      sample_intrinsics (mkVec2 (rat 0 1) (rat 0 1)).
Proof.
  apply (reprojection_scale_gauge Qc_scalar_ring Qc_div_mul ceres_rotation
           SimplePinholeCameraModel (ceres_rotate_scale Qc_scalar_ring));
    Qc_compute.
Defined.

Lemma epipolar_zero_iff_constraint_witness :
  EpipolarResidual ceres_rotation matched_x1 matched_x2
    identity_quaternion sideways_translation = rat 0 1
  <-> dot (homogeneous matched_x2)
          (mat_vec (mat_mul (skew sideways_translation)
                            (rotation_matrix ceres_rotation
                               identity_quaternion))
                   (homogeneous matched_x1)) = rat 0 1.
Proof.
  apply (epipolar_zero_iff_constraint Qc_scalar_ring Qc_div_mul
           ceres_rotation matched_x1 matched_x2 identity_quaternion
           sideways_translation).
  Qc_compute.
Defined.

Lemma epipolar_direction_only_witness :
  EpipolarResidual ceres_rotation matched_x1 unmatched_x2
    sample_orientation (scale3 (rat (-3) 1) sample_translation)
  = EpipolarResidual ceres_rotation matched_x1 unmatched_x2
      sample_orientation sample_translation.
Proof.
  apply (epipolar_direction_only Qc_scalar_ring Qc_div_mul ceres_rotation
           matched_x1 unmatched_x2 sample_orientation sample_translation
           (rat (-3) 1)); Qc_compute.
Defined.

Lemma epipolar_zero_translation_witness :
  sampson_numerator ceres_rotation matched_x1 unmatched_x2
    sample_orientation zero_translation = rat 0 1
  /\ sampson_denominator ceres_rotation matched_x1 unmatched_x2
       sample_orientation zero_translation = rat 0 1
  /\ EpipolarResidual ceres_rotation matched_x1 unmatched_x2
       sample_orientation zero_translation = div (rat 0 1) (rat 0 1).
Proof.
  apply (epipolar_zero_translation Qc_scalar_ring ceres_rotation
           matched_x1 unmatched_x2 sample_orientation).
Defined.

(** ** A further property in [double]s

    The sign of an IEEE product, sum and quotient, read off the
    specification of the operations: rounding never changes it. *)

Lemma round_aux_sign (s : bool) (m e : Z) (l : location) :
  s = false -> sign_clear (binary_round_aux prec emax s m e l).
Proof.
  intros ->. unfold binary_round_aux.
  destruct (shr_fexp prec emax m e l) as [r1 e1].
  destruct (shr_fexp prec emax _ e1 loc_Exact) as [r2 e2].
  destruct (shr_m r2); cbn; auto.
  destruct (Z.leb e2 _); cbn; reflexivity.
Qed.

Lemma SFmul_square_sign (x : spec_float) : sign_clear (SFmul prec emax x x).
Proof.
  destruct x as [s | s | | s m e]; cbn; auto using xorb_nilpotent.
  apply round_aux_sign. apply xorb_nilpotent.
Qed.

Lemma SFadd_sign (x y : spec_float) :
  sign_clear x -> sign_clear y -> sign_clear (SFadd prec emax x y).
Proof.
  destruct x as [sx | sx | | sx mx ex], y as [sy | sy | | sy my ey];
    cbn; intros Hx Hy; subst; cbn; auto.
  unfold binary_normalize.
  destruct (shl_align mx ex _) as [m1 e1], (shl_align my ey _) as [m2 e2].
  cbn. unfold binary_round.
  destruct (shl_align _ _ _) as [mz ez].
  apply round_aux_sign. reflexivity.
Qed.

Lemma SFdiv_sign (x y : spec_float) :
  sign_clear x -> sign_clear y -> sign_clear (SFdiv prec emax x y).
Proof.
  destruct x as [sx | sx | | sx mx ex], y as [sy | sy | | sy my ey];
    cbn; intros Hx Hy; subst; cbn; auto.
  destruct (SFdiv_core_binary _ _ _ _ _ _) as [[mz ez] lz].
  apply round_aux_sign. reflexivity.
Qed.

Lemma sign_clear_nonnegative_or_nan (r : float) :
  sign_clear (Prim2SF r) ->
  PrimFloat.leb 0 r = true \/ PrimFloat.is_nan r = true.
Proof.
  unfold PrimFloat.is_nan. rewrite leb_spec, FloatAxioms.eqb_spec.
  change (Prim2SF 0) with (S754_zero false).
  destruct (Prim2SF r) as [s | s | | s m e]; cbn; intros H; subst; cbn;
    auto.
Qed.

(** X8.  In [double] arithmetic the epipolar residual is never negative,
    on any input and whatever the rotation routine returns: it is greater
    than or equal to zero, or it is a NaN. *)
Theorem epipolar_residual_double_never_negative :
  forall (ceres : Rotation float) (x1 x2 : Vec2 float) (q : Vec4 float)
         (t : Vec3 float),
    let r := EpipolarResidual ceres x1 x2 q t in
    PrimFloat.leb 0 r = true \/ PrimFloat.is_nan r = true.
Proof.
  intros ceres x1 x2 q t r. apply sign_clear_nonnegative_or_nan.
  subst r. rewrite EpipolarResidual_sampson.
  unfold sampson_residual, sampson_denominator; cbv zeta.
  cbn [div mul add double_scalar].
  rewrite div_spec, mul_spec, !add_spec, !mul_spec.
  apply SFdiv_sign; [apply SFmul_square_sign|].
  repeat apply SFadd_sign; apply SFmul_square_sign.
Qed.

(** ** The functors do not look at the representation of numbers *)

Section Representation.
Context {D T T' : Type} {numT : Scalar D T} {numT' : Scalar D T'}.
Variable h : T -> T'.
Variable ceres : Rotation T.
Variable ceres' : Rotation T'.
Variable CM : CameraModel T.
Variable CM' : CameraModel T'.
Local Open Scope scalar_scope.

Hypothesis h_scalar : scalar_morphism h.
Hypothesis h_ceres : rotation_morphism h ceres ceres'.
Hypothesis h_camera : camera_morphism h CM CM'.

Ltac push_h :=
  rewrite <- ?(h_zero h_scalar), <- ?(h_one h_scalar),
          <- ?(h_cast h_scalar);
  repeat (rewrite <- (h_opp h_scalar) || rewrite <- (h_mul h_scalar)
          || rewrite <- (h_add h_scalar) || rewrite <- (h_sub h_scalar)
          || rewrite <- (h_div h_scalar)).

Lemma reprojection_residual_morphism (obs : Vec2 D) (q : Vec4 T)
    (t X : Vec3 T) (params : list T) :
  reprojection_residual ceres' CM' obs (map4 h q) (map3 h t) (map3 h X)
    (map h params)
  = map2 h (reprojection_residual ceres CM obs q t X params).
Proof.
  unfold reprojection_residual, camera_frame_point; cbv zeta.
  rewrite (h_rotate h_ceres).
  destruct (UnitQuaternionRotatePoint ceres q X) as [p0 p1 p2].
  destruct t as [t0 t1 t2].
  unfold vadd3, map3, map2. cbn [v3_0 v3_1 v3_2 v2_0 v2_1].
  push_h. rewrite h_camera. cbn [fst snd]. push_h. reflexivity.
Qed.

Lemma sampson_residual_morphism (x1 x2 : Vec2 D) (q : Vec4 T) (t : Vec3 T) :
  sampson_residual ceres' x1 x2 (map4 h q) (map3 h t)
  = h (sampson_residual ceres x1 x2 q t).
Proof.
  unfold sampson_residual, sampson_numerator, sampson_denominator,
         essential_matrix, rotation_matrix, RowMajor_of_data; cbv zeta.
  rewrite !(h_to_rotation h_ceres).
  generalize (QuaternionToRotation ceres q). intros R.
  destruct t as [t0 t1 t2].
  unfold homogeneous, mat_vec, mat_mul, transpose, col, coeff, skew, dot,
         map3.
  cbn [at3 v3_0 v3_1 v3_2].
  push_h. reflexivity.
Qed.

(** X9.  Each evaluator commutes with a change of numeric type: when [h]
    commutes with the arithmetic, with the conversion of constants and with
    the external routines, evaluating at the images of the parameters gives
    the images of the residuals.  With [h] the value of a differentiable
    number: the derivative-carrying evaluation and the plain one produce
    the same residual values. *)
Theorem evaluators_commute_with_representation :
  (forall obs q t X params residuals residuals',
      snd (BundleAdjustmentCostFunction_call ceres' CM'
             (functor (BundleAdjustmentCostFunction_Create CM' obs))
             (map4 h q) (map3 h t) (map3 h X) (map h params) residuals')
      = map2 h (snd (BundleAdjustmentCostFunction_call ceres CM
                       (functor (BundleAdjustmentCostFunction_Create CM obs))
                       q t X params residuals)))
  /\ (forall q0 t0 obs X params residuals residuals',
      snd (BundleAdjustmentConstantPoseCostFunction_call ceres' CM'
             (functor (BundleAdjustmentConstantPoseCostFunction_Create
                         CM' q0 t0 obs))
             (map3 h X) (map h params) residuals')
      = map2 h (snd (BundleAdjustmentConstantPoseCostFunction_call ceres CM
                       (functor
                          (BundleAdjustmentConstantPoseCostFunction_Create
                             CM q0 t0 obs))
                       X params residuals)))
  /\ (forall obs rig_q rig_t rel_q rel_t X params residuals residuals',
      snd (RigBundleAdjustmentCostFunction_call ceres' CM'
             (functor (RigBundleAdjustmentCostFunction_Create CM' obs))
             (map4 h rig_q) (map3 h rig_t) (map4 h rel_q) (map3 h rel_t)
             (map3 h X) (map h params) residuals')
      = map2 h (snd (RigBundleAdjustmentCostFunction_call ceres CM
                       (functor
                          (RigBundleAdjustmentCostFunction_Create CM obs))
                       rig_q rig_t rel_q rel_t X params residuals)))
  /\ (forall x1 x2 q t,
      EpipolarResidual ceres' x1 x2 (map4 h q) (map3 h t)
      = h (EpipolarResidual ceres x1 x2 q t)).
Proof.
  repeat split.
  - intros obs q t X params residuals residuals'.
    cbn [functor BundleAdjustmentCostFunction_Create].
    rewrite !standard_pipeline. cbn [snd].
    apply reprojection_residual_morphism.
  - intros q0 t0 obs X params residuals residuals'.
    cbn [functor BundleAdjustmentConstantPoseCostFunction_Create].
    rewrite !constant_pose_pipeline. cbn [snd].
    rewrite <- reprojection_residual_morphism.
    f_equal; [destruct q0 | destruct t0]; unfold map4, map3;
      cbn [v4_0 v4_1 v4_2 v4_3 v3_0 v3_1 v3_2]; push_h; reflexivity.
  - intros obs rig_q rig_t rel_q rel_t X params residuals residuals'.
    cbn [functor RigBundleAdjustmentCostFunction_Create].
    rewrite !rig_pipeline. cbn [snd].
    rewrite <- reprojection_residual_morphism.
    unfold combinedOrientation, combinedTranslation.
    rewrite (h_product h_ceres), (h_rotate h_ceres).
    f_equal.
    destruct (UnitQuaternionRotatePoint ceres rel_q rig_t) as [c0 c1 c2].
    destruct rel_t as [r0 r1 r2].
    unfold vadd3, map3. cbn [v3_0 v3_1 v3_2]. push_h. reflexivity.
  - intros x1 x2 q t. rewrite !EpipolarResidual_sampson.
    apply sampson_residual_morphism.
Qed.
End Representation.

(** ** Dual numbers against plain numbers *)

#[local] Existing Instance Dual_scalar.

Lemma value_scalar_morphism :
  scalar_morphism (numT := Dual_scalar) (numT' := Qc_scalar) value.
Proof. split; reflexivity. Qed.

Lemma value_rotation_morphism :
  rotation_morphism value
    (ceres_rotation (num := Dual_scalar))
    (ceres_rotation (num := Qc_scalar)).
Proof.
  split.
  - intros [q0 q1 q2 q3] [v0 v1 v2]. reflexivity.
  - intros [z0 z1 z2 z3] [w0 w1 w2 w3]. reflexivity.
  - intros [q0 q1 q2 q3] offset.
    cbn [QuaternionToRotation ceres_rotation].
    unfold ceres_QuaternionToRotation; cbv zeta.
    change (zero (T := Qc)) with (value (zero (Scalar := Dual_scalar))).
    rewrite <- (map_nth value). reflexivity.
Qed.

Lemma value_camera_morphism :
  camera_morphism value
    (SimplePinholeCameraModel (num := Dual_scalar))
    (SimplePinholeCameraModel (num := Qc_scalar)).
Proof.
  intros params u v. cbn [WorldToImage SimplePinholeCameraModel].
  change (zero (T := Qc)) with (value (zero (Scalar := Dual_scalar))).
  rewrite !(map_nth value). reflexivity.
Qed.

Lemma evaluators_commute_with_representation_witness :
  let q := map4 (seeded (rat 0 1)) sample_orientation in
  let t := map3 (seeded (rat 0 1)) sample_translation in
  let X := mkVec3 (seeded (rat 1 1) (rat 1 1)) (seeded (rat 0 1) (rat 2 1))
                  (seeded (rat 0 1) (rat 4 1)) in
  let params := map (seeded (rat 0 1)) sample_intrinsics in
  snd (BundleAdjustmentCostFunction_call (num := Qc_scalar) ceres_rotation
         SimplePinholeCameraModel
         (functor (BundleAdjustmentCostFunction_Create
                     SimplePinholeCameraModel sample_observation))
         (map4 value q) (map3 value t) (map3 value X) (map value params)
         (mkVec2 (rat 0 1) (rat 0 1)))
  = map2 value
      (snd (BundleAdjustmentCostFunction_call (num := Dual_scalar)
              ceres_rotation SimplePinholeCameraModel
              (functor (BundleAdjustmentCostFunction_Create
                          SimplePinholeCameraModel sample_observation))
              q t X params (mkVec2 (one (Scalar := Dual_scalar))
                                   (one (Scalar := Dual_scalar))))).
Proof.
  intros q t X params.
  apply (proj1 (evaluators_commute_with_representation value
                  (ceres_rotation (num := Dual_scalar))
                  (ceres_rotation (num := Qc_scalar))
                  (SimplePinholeCameraModel (num := Dual_scalar))
                  (SimplePinholeCameraModel (num := Qc_scalar))
                  value_scalar_morphism value_rotation_morphism
                  value_camera_morphism)).
Defined.

(** The first residual of the sample point, with the partial derivative in
    the first coordinate of the point: f / P.z = 500/19. *)
Example sample_residual_derivative :
  let q := map4 (seeded (rat 0 1)) sample_orientation in
  let t := map3 (seeded (rat 0 1)) sample_translation in
  let X := mkVec3 (seeded (rat 1 1) (rat 1 1)) (seeded (rat 0 1) (rat 2 1))
                  (seeded (rat 0 1) (rat 4 1)) in
  let params := map (seeded (rat 0 1)) sample_intrinsics in
  at2 (snd (BundleAdjustmentCostFunction_call (num := Dual_scalar)
              ceres_rotation SimplePinholeCameraModel
              {| ba_point2D_ := sample_observation |}
              q t X params (mkVec2 (one (Scalar := Dual_scalar))
                                   (one (Scalar := Dual_scalar))))) 0
  = (rat 332 19, rat 500 19).
Proof.
  intros q t X params. apply injective_projections; Qc_compute.
Qed.

(** ** Zero depth in [double]s *)

(** Whatever is divided by a zero of either sign, the quotient is an
    infinity or a NaN. *)
Lemma div_by_zero_not_finite (a d : float) :
  PrimFloat.is_zero d = true -> PrimFloat.is_finite (a / d) = false.
Proof.
  unfold PrimFloat.is_zero, PrimFloat.is_finite, PrimFloat.is_nan,
         PrimFloat.is_infinity.
  rewrite !FloatAxioms.eqb_spec, abs_spec, div_spec.
  change (Prim2SF PrimFloat.zero) with (S754_zero false).
  change (Prim2SF infinity) with (S754_infinity false).
  destruct (Prim2SF d) as [sd | sd | | sd md ed]; cbn; intros H;
    try discriminate H; try (destruct sd; discriminate H);
    destruct (Prim2SF a) as [sa | sa | | sa ma ea]; unfold SF64div; cbn;
    try destruct (xorb _ _); reflexivity.
Qed.

(** X10.  A point at camera-frame depth zero (either sign) is not
    rejected in [double]s: the evaluator reports success, and the two
    local coordinates it hands to the camera model are each an infinity or
    a NaN. *)
Theorem reprojection_zero_depth_double :
  forall (ceres : Rotation float) (CM : CameraModel float)
         (obs : Vec2 float) (q : Vec4 float) (t X : Vec3 float)
         (params : list float) (residuals : Vec2 float),
    PrimFloat.is_zero (v3_2 (camera_frame_point ceres q t X)) = true ->
    let P := camera_frame_point ceres q t X in
    let local_x := PrimFloat.div (v3_0 P) (v3_2 P) in
    let local_y := PrimFloat.div (v3_1 P) (v3_2 P) in
    let xy := WorldToImage CM params local_x local_y in
    PrimFloat.is_finite local_x = false
    /\ PrimFloat.is_finite local_y = false
    /\ BundleAdjustmentCostFunction_call ceres CM
         (functor (BundleAdjustmentCostFunction_Create CM obs))
         q t X params residuals
       = (true, mkVec2 (PrimFloat.sub (fst xy) (v2_0 obs))
                       (PrimFloat.sub (snd xy) (v2_1 obs))).
Proof.
  intros ceres CM obs q t X params residuals Hz P local_x local_y xy.
  split; [apply div_by_zero_not_finite; exact Hz|].
  split; [apply div_by_zero_not_finite; exact Hz|].
  cbn [functor BundleAdjustmentCostFunction_Create].
  rewrite standard_pipeline. reflexivity.
Qed.

Lemma reprojection_zero_depth_double_witness :
  let P := camera_frame_point ceres_rotation identity_quaternion
             zero_translation (mkVec3 1%float 2%float 0%float) in
  let local_x := PrimFloat.div (v3_0 P) (v3_2 P) in
  let local_y := PrimFloat.div (v3_1 P) (v3_2 P) in
  let xy := WorldToImage SimplePinholeCameraModel
              [100%float; 50%float; 60%float] local_x local_y in
  PrimFloat.is_finite local_x = false
  /\ PrimFloat.is_finite local_y = false
  /\ BundleAdjustmentCostFunction_call ceres_rotation
       SimplePinholeCameraModel
       (functor (BundleAdjustmentCostFunction_Create
                   SimplePinholeCameraModel (mkVec2 3%float 4%float)))
       identity_quaternion zero_translation
       (mkVec3 1%float 2%float 0%float)
       [100%float; 50%float; 60%float] (mkVec2 7%float 7%float)
     = (true, mkVec2 (PrimFloat.sub (fst xy) 3%float)
                     (PrimFloat.sub (snd xy) 4%float)).
Proof.
  apply (reprojection_zero_depth_double ceres_rotation
           SimplePinholeCameraModel (mkVec2 3%float 4%float)
           identity_quaternion zero_translation
           (mkVec3 1%float 2%float 0%float)
           [100%float; 50%float; 60%float] (mkVec2 7%float 7%float)).
  vm_compute. reflexivity.
Defined.

(** ** The epipolar constraint in [double]s *)

(** X11.  In [double]s, a correspondence whose constraint value
    x2_h^T ([t]x R) x1_h is exactly zero and whose Sampson denominator is
    positive has residual exactly zero, whatever the rotation routine
    returns. *)
Theorem epipolar_zero_residual_double :
  forall (ceres : Rotation float) (x1 x2 : Vec2 float) (q : Vec4 float)
         (t : Vec3 float),
    dot (homogeneous x2)
        (mat_vec (mat_mul (skew t) (rotation_matrix ceres q))
                 (homogeneous x1)) = 0%float ->
    PrimFloat.ltb 0 (sampson_denominator ceres x1 x2 q t) = true ->
    EpipolarResidual ceres x1 x2 q t = 0%float.
Proof.
  intros ceres x1 x2 q t Hn Hd.
  apply epipolar_zero_error_double; assumption.
Qed.

Lemma epipolar_zero_residual_double_witness :
  EpipolarResidual ceres_rotation (mkVec2 1%float 0%float)
    (mkVec2 1%float 0%float) identity_quaternion forward_translation
  = 0%float.
Proof.
  apply (epipolar_zero_residual_double ceres_rotation
           (mkVec2 1%float 0%float) (mkVec2 1%float 0%float)
           identity_quaternion forward_translation);
    vm_compute; reflexivity.
Defined.

(** ** The algebraic claims in [double]s

    Rounding keeps the sign of a quotient and never turns a number into a
    NaN: the mantissa stays nonnegative through the shifts and the
    rounding to nearest. *)

Lemma shr_1_nonneg (r : shr_record) :
  (0 <= shr_m r)%Z -> (0 <= shr_m (shr_1 r))%Z.
Proof.
  destruct r as [m rr ss]. cbn.
  destruct m as [| p | p]; [| destruct p | ]; cbn; lia.
Qed.

Lemma iter_pos_invariant {A : Type} (P : A -> Prop) (f : A -> A) :
  (forall x, P x -> P (f x)) ->
  forall n x, P x -> P (iter_pos f n x).
Proof.
  intros Hf. induction n as [n IH | n IH |]; cbn; intros x Hx; auto.
Qed.

Lemma shr_fexp_nonneg (m e : Z) (l : location) :
  (0 <= m)%Z -> (0 <= shr_m (fst (shr_fexp prec emax m e l)))%Z.
Proof.
  intros Hm. unfold shr_fexp, shr.
  assert (H0 : (0 <= shr_m (shr_record_of_loc m l))%Z)
    by (destruct l as [| []]; exact Hm).
  destruct (Z.sub _ e); cbn [fst]; auto.
  apply (iter_pos_invariant (fun r => (0 <= shr_m r)%Z));
    auto using shr_1_nonneg.
Qed.

Lemma round_nearest_even_nonneg (m : Z) (l : location) :
  (0 <= m)%Z -> (0 <= round_nearest_even m l)%Z.
Proof.
  intros Hm. unfold round_nearest_even.
  destruct l as [| []]; try destruct (Z.even m); lia.
Qed.

Lemma round_aux_nonnegative (m e : Z) (l : location) :
  (0 <= m)%Z ->
  SFleb (S754_zero false) (binary_round_aux prec emax false m e l) = true.
Proof.
  intros Hm. unfold binary_round_aux.
  pose proof (shr_fexp_nonneg m e l Hm) as H1.
  destruct (shr_fexp prec emax m e l) as [r1 e1]. cbn [fst] in H1.
  pose proof (shr_fexp_nonneg _ e1 loc_Exact
                (round_nearest_even_nonneg _ (loc_of_shr_record r1) H1))
    as H2.
  destruct (shr_fexp prec emax _ e1 loc_Exact) as [r2 e2]. cbn [fst] in H2.
  destruct (shr_m r2) as [| p | p]; [reflexivity | | lia].
  destruct (Z.leb e2 _); reflexivity.
Qed.

Lemma div_core_nonneg (m1 : positive) (e1 : Z) (m2 : positive) (e2 : Z) :
  (0 <= fst (fst (SFdiv_core_binary prec emax (Zpos m1) e1 (Zpos m2) e2)))%Z.
Proof.
  unfold SFdiv_core_binary.
  set (s := (e1 - e2 - _)%Z).
  set (m' := match s with
             | Zpos _ => Z.shiftl (Zpos m1) s
             | Z0 => Zpos m1
             | Zneg _ => Z0
             end).
  assert (Hm : (0 <= m')%Z).
  { subst m'. destruct s; try lia. apply Z.shiftl_nonneg. lia. }
  pose proof (Z.div_pos m' (Zpos m2) Hm ltac:(lia)) as Hq.
  unfold Z.div in Hq.
  destruct (Z.div_eucl m' (Zpos m2)) as [q r]. exact Hq.
Qed.

(** A number with a clear sign bit divided by a positive one is greater
    than or equal to zero, unless both are infinite. *)
Lemma SFdiv_nonnegative (x y : spec_float) :
  sign_clear x -> sign_clear y ->
  x <> S754_nan ->
  SFltb (S754_zero false) y = true ->
  ~ (x = S754_infinity false /\ y = S754_infinity false) ->
  SFleb (S754_zero false) (SFdiv prec emax x y) = true.
Proof.
  destruct x as [sx | sx | | sx mx ex], y as [sy | sy | | sy my ey];
    cbn; intros Hx Hy Hn Hp Hi; subst; try discriminate Hp;
    try reflexivity; try (destruct Hn; reflexivity);
    try (destruct Hi; split; reflexivity).
  pose proof (div_core_nonneg mx ex my ey) as Hq.
  destruct (SFdiv_core_binary _ _ _ _ _ _) as [[mz ez] lz].
  apply round_aux_nonnegative. exact Hq.
Qed.

Lemma sampson_denominator_double_sign (ceres : Rotation float)
    (x1 x2 : Vec2 float) (q : Vec4 float) (t : Vec3 float) :
  sign_clear (Prim2SF (sampson_denominator ceres x1 x2 q t)).
Proof.
  unfold sampson_denominator; cbv zeta. cbn [mul add double_scalar].
  rewrite !add_spec, !mul_spec.
  repeat apply SFadd_sign; apply SFmul_square_sign.
Qed.

(** The square of a zero of either sign is +0. *)
Lemma square_of_zero_double (n : float) :
  PrimFloat.is_zero n = true -> PrimFloat.mul n n = 0%float.
Proof.
  unfold PrimFloat.is_zero. rewrite FloatAxioms.eqb_spec.
  change (Prim2SF PrimFloat.zero) with (S754_zero false).
  intros H. rewrite <- (SF2Prim_Prim2SF (n * n)), mul_spec.
  destruct (Prim2SF n) as [s | s | | s m e]; cbn in H;
    try discriminate H; try (destruct s; discriminate H).
  unfold SF64mul. cbn. rewrite xorb_nilpotent. reflexivity.
Qed.

(** Zero divided by a zero or by a NaN is a NaN. *)
Lemma zero_div_not_positive (d : float) :
  sign_clear (Prim2SF d) ->
  PrimFloat.ltb 0 d = false -> PrimFloat.is_nan (0 / d) = true.
Proof.
  unfold PrimFloat.is_nan.
  rewrite ltb_spec, FloatAxioms.eqb_spec, div_spec.
  change (Prim2SF 0) with (S754_zero false).
  destruct (Prim2SF d) as [s | s | | s m e]; cbn; intros Hs H; subst;
    try discriminate H; reflexivity.
Qed.

(** C6, as the code has it.  In [double]s, for every relative pose (q, t)
    and every pair of correspondences x1, x2 whose constraint value
    x2_h^T ([t]x R) x1_h is zero: the epipolar residual is 0 when the
    Sampson denominator Ex1.x^2 + Ex1.y^2 + Etx2.x^2 + Etx2.y^2 is
    positive, and it is a NaN when the denominator is not positive, that
    is when it is zero or a NaN. *)
Theorem C6_epipolar_zero_error_by_denominator :
  forall (ceres : Rotation float) (x1 x2 : Vec2 float) (q : Vec4 float)
         (t : Vec3 float),
    PrimFloat.is_zero
      (dot (homogeneous x2)
           (mat_vec (mat_mul (skew t) (rotation_matrix ceres q))
                    (homogeneous x1))) = true ->
    (PrimFloat.ltb 0 (sampson_denominator ceres x1 x2 q t) = true ->
     EpipolarResidual ceres x1 x2 q t = 0%float)
    /\ (PrimFloat.ltb 0 (sampson_denominator ceres x1 x2 q t) = false ->
        PrimFloat.is_nan (EpipolarResidual ceres x1 x2 q t) = true).
Proof.
  intros ceres x1 x2 q t Hn.
  rewrite EpipolarResidual_sampson.
  unfold sampson_residual, sampson_numerator, essential_matrix; cbv zeta.
  cbn [mul div double_scalar].
  rewrite (square_of_zero_double _ Hn).
  split; intros Hd.
  - apply (zero_div_positive _ Hd).
  - apply zero_div_not_positive; [|exact Hd].
    apply sampson_denominator_double_sign.
Qed.

Lemma C6_epipolar_zero_error_by_denominator_witness :
  EpipolarResidual ceres_rotation (mkVec2 2%float 1%float)
    (mkVec2 4%float 2%float) identity_quaternion forward_translation
  = 0%float.
Proof.
  apply (C6_epipolar_zero_error_by_denominator ceres_rotation
           (mkVec2 2%float 1%float) (mkVec2 4%float 2%float)
           identity_quaternion forward_translation);
    vm_compute; reflexivity.
Defined.

(** C10, as the code has it.  In [double]s, for every orientation q and
    translation t for which the Sampson denominator is positive (so
    neither zero nor a NaN), the squared numerator n * n is not a NaN, and
    the two are not both infinite, the epipolar residual is greater than
    or equal to zero. *)
Theorem C10_epipolar_residual_nonnegative_double :
  forall (ceres : Rotation float) (x1 x2 : Vec2 float) (q : Vec4 float)
         (t : Vec3 float),
    let n := sampson_numerator ceres x1 x2 q t in
    let d := sampson_denominator ceres x1 x2 q t in
    PrimFloat.ltb 0 d = true ->
    PrimFloat.is_nan (PrimFloat.mul n n) = false ->
    PrimFloat.is_infinity (PrimFloat.mul n n) && PrimFloat.is_infinity d
    = false ->
    PrimFloat.leb 0 (EpipolarResidual ceres x1 x2 q t) = true.
Proof.
  intros ceres x1 x2 q t n d Hd Hn Hi.
  rewrite EpipolarResidual_sampson. unfold sampson_residual; cbv zeta.
  fold n d. cbn [mul div double_scalar].
  rewrite leb_spec, div_spec.
  change (Prim2SF 0) with (S754_zero false).
  apply SFdiv_nonnegative.
  - rewrite mul_spec. apply SFmul_square_sign.
  - apply sampson_denominator_double_sign.
  - intros E. unfold PrimFloat.is_nan in Hn.
    rewrite FloatAxioms.eqb_spec, E in Hn. discriminate Hn.
  - rewrite ltb_spec in Hd. exact Hd.
  - intros [E1 E2]. unfold PrimFloat.is_infinity in Hi.
    rewrite !FloatAxioms.eqb_spec, !abs_spec, E1, E2 in Hi.
    discriminate Hi.
Qed.

Lemma C10_epipolar_residual_nonnegative_double_witness :
  PrimFloat.leb 0
    (EpipolarResidual ceres_rotation (mkVec2 1%float 0%float)
       (mkVec2 1%float 0x1p-30%float) identity_quaternion
       forward_translation) = true.
Proof.
  apply (C10_epipolar_residual_nonnegative_double ceres_rotation
           (mkVec2 1%float 0%float) (mkVec2 1%float 0x1p-30%float)
           identity_quaternion forward_translation);
    vm_compute; reflexivity.
Defined.

(** C10 as stated fails.  With the translation (2^700, 0, 0) the Sampson
    denominator overflows to +infinity, which is not zero, and so does the
    squared numerator: the residual is infinity / infinity, a NaN, and
    [0 <= residual] is false. *)
Lemma C10_epipolar_residual_nonnegative_counterexample :
  sampson_denominator ceres_rotation (mkVec2 0%float 1%float)
    (mkVec2 0%float 0%float) identity_quaternion
    (mkVec3 0x1p700%float 0%float 0%float) = infinity
  /\ PrimFloat.is_zero
       (sampson_denominator ceres_rotation (mkVec2 0%float 1%float)
          (mkVec2 0%float 0%float) identity_quaternion
          (mkVec3 0x1p700%float 0%float 0%float)) = false
  /\ PrimFloat.leb 0
       (EpipolarResidual ceres_rotation (mkVec2 0%float 1%float)
          (mkVec2 0%float 0%float) identity_quaternion
          (mkVec3 0x1p700%float 0%float 0%float)) = false.
Proof. repeat split; vm_compute; reflexivity. Qed.

(** C7 as stated fails.  Under the forward motion the pair (1, 0),
    (1, 2^-30) has residual 2^-61.  With the translation multiplied by
    s = 2^-510 the squared numerator 2^-1080 underflows to zero while the
    denominator 2^-1019 does not: the residual is 0 at (q, s t) and not
    at (q, t). *)
Lemma C7_translation_scale_counterexample :
  PrimFloat.is_zero 0x1p-510%float = false
  /\ EpipolarResidual ceres_rotation (mkVec2 1%float 0%float)
       (mkVec2 1%float 0x1p-30%float) identity_quaternion
       (scale3 0x1p-510%float forward_translation) = 0%float
  /\ EpipolarResidual ceres_rotation (mkVec2 1%float 0%float)
       (mkVec2 1%float 0x1p-30%float) identity_quaternion
       forward_translation = 0x1p-61%float
  /\ PrimFloat.is_zero 0x1p-61%float = false.
Proof. repeat split; vm_compute; reflexivity. Qed.



